(** * PnP-JS-Core: configuration providers and REST resource builders

    A shallow embedding of

      - [src/configuration/providers/spListConfigurationProvider.ts]
      - [src/sharepoint/rest/site.ts]  (classes [Site], [Fields], [Field])

    together with the parts of the library these files import but that are
    not part of the sources at hand ([Queryable], [Util.extend],
    [CachingConfigurationProvider]); those are marked as modelled from the
    specification. *)

From Stdlib Require Import ZArith Ascii String.
From stdpp Require Import gmap strings list fin_maps pretty.

Local Open Scope string_scope.
Local Open Scope list_scope.
Local Set Warnings "-register-all".

(* ===================================================================== *)
(** ** Promises *)
(* ===================================================================== *)

(** Why a promise was rejected.  [TypeError] is the exception thrown by the
    JavaScript runtime itself; [RequestError] is a failure of a verb call
    (status and raw body). *)
Inductive Reason : Type :=
  | TypeError
  | RequestError (status : Z) (body : string).

(** The settled state of a promise. *)
Inductive Outcome (A : Type) : Type :=
  | Resolved (a : A)
  | Rejected (e : Reason).
Arguments Resolved {A} a.
Arguments Rejected {A} e.

(** [p.then(f)]: [f] runs on the resolved value; a [throw] inside [f]
    (modelled by [f] returning [Rejected]) rejects the derived promise, and a
    rejected [p] is passed on untouched. *)
Definition and_then {A B} (p : Outcome A) (f : A -> Outcome B) : Outcome B :=
  match p with
  | Resolved a => f a
  | Rejected e => Rejected e
  end.

(** [Array.prototype.reduce] with an initial value, for a callback that may
    throw: elements are visited left to right and the first exception aborts
    the traversal.  [forEach] with a callback that updates one captured
    object is the same traversal. *)
Fixpoint reduce {A B} (f : B -> A -> Outcome B) (l : list A) (init : B)
  : Outcome B :=
  match l with
  | [] => Resolved init
  | x :: l' =>
      match f init x with
      | Resolved b => reduce f l' b
      | Rejected e => Rejected e
      end
  end.

(** Stateful code is written in a state monad: a computation takes the
    current state and returns its result with the next state. *)
Definition State (S A : Type) : Type := S -> A * S.

Definition ret {S A} (a : A) : State S A := fun s => (a, s).

Definition bind {S A B} (m : State S A) (f : A -> State S B) : State S B :=
  fun s => let (a, s') := m s in f a s'.

Declare Scope state_scope.
Delimit Scope state_scope with state.
Notation "'let*' x ':=' m 'in' k" := (bind m (fun x => k))
  (at level 10, x name, m at level 100, k at level 200) : state_scope.
Local Open Scope state_scope.

(* ===================================================================== *)
(** ** Plain JavaScript objects used as string maps *)
(* ===================================================================== *)

Module Js.

(** A value stored in a [TypedHash<string>]: a string, or [undefined]
    ([None]) when the field it was read from is missing. *)
Definition value := option string.

(** A data property with its attributes. *)
Record property : Type := Property {
  p_value        : value;
  p_writable     : bool;
  p_enumerable   : bool;
  p_configurable : bool
}.

(** The own properties of an object created by [{}], in creation order.
    The prototype is [Object.prototype]; its members are not stored here. *)
Definition object := list (string * property).

Definition empty : object := [].

(** [ToString] on a string-or-undefined value, as applied by a template
    literal. *)
Definition toString (v : value) : string :=
  match v with
  | Some s => s
  | None => "undefined"
  end.

(** [ToPropertyKey] on a string-or-undefined value. *)
Definition toPropertyKey (v : value) : string := toString v.

Fixpoint getOwnProperty (o : object) (k : string) : option property :=
  match o with
  | [] => None
  | (k', p) :: o' => if String.eqb k' k then Some p else getOwnProperty o' k
  end.

(** Replace the property stored under [k], keeping its position. *)
Fixpoint replaceOwn (o : object) (k : string) (p : property) : object :=
  match o with
  | [] => []
  | (k', p') :: o' =>
      if String.eqb k' k then (k', p) :: o' else (k', p') :: replaceOwn o' k p
  end.

(** [SameValue] on strings and [undefined]. *)
Definition sameValue (a b : value) : bool :=
  match a, b with
  | Some x, Some y => String.eqb x y
  | None, None => true
  | _, _ => false
  end.

(** [o[k] = v] on an ordinary extensible object whose prototype is
    [Object.prototype], in strict mode.
    - an own writable data property is overwritten in place;
    - an own read-only one makes the assignment throw;
    - ["__proto__"] that is not an own property reaches the accessor
      inherited from [Object.prototype], whose setter ignores every value
      that is neither an object nor [null];
    - any other missing key is created writable, enumerable and
      configurable, after the existing ones. *)
Definition set (o : object) (k : string) (v : value) : Outcome object :=
  match getOwnProperty o k with
  | Some p =>
      if p_writable p
      then Resolved (replaceOwn o k
             (Property v true (p_enumerable p) (p_configurable p)))
      else Rejected TypeError
  | None =>
      if String.eqb k "__proto__" then Resolved o
      else Resolved (o ++ [(k, Property v true true true)])
  end.

(** [Object.defineProperty(o, k, desc)] for a complete data descriptor on
    an extensible ordinary object (ValidateAndApplyPropertyDescriptor).
    A missing key is created with the attributes of [desc].  An existing
    configurable property is redefined.  An existing non-configurable one
    accepts only a descriptor that changes nothing it is not allowed to
    change: same enumerability, not configurable, and, when read-only, not
    writable and the same value; anything else throws. *)
Definition defineProperty (o : object) (k : string) (desc : property)
  : Outcome object :=
  match getOwnProperty o k with
  | None => Resolved (o ++ [(k, desc)])
  | Some cur =>
      if p_configurable cur then Resolved (replaceOwn o k desc)
      else if p_configurable desc then Rejected TypeError
      else if negb (Bool.eqb (p_enumerable desc) (p_enumerable cur))
           then Rejected TypeError
      else if p_writable cur then Resolved (replaceOwn o k desc)
      else if p_writable desc then Rejected TypeError
      else if sameValue (p_value desc) (p_value cur) then Resolved o
      else Rejected TypeError
  end.

(** [o[k]] restricted to own properties: [None] when [k] is not an own
    property, [Some v] with the stored value otherwise. *)
Definition get (o : object) (k : string) : option value :=
  p_value <$> getOwnProperty o k.

(** [Object.getOwnPropertyNames(o)]. *)
Definition ownKeys (o : object) : list string := o.*1.

(** The keys visited by [for ... in] and returned by [Object.keys]: the own
    enumerable ones ([Object.prototype] has no enumerable member).  They
    are listed in creation order, which is the order JavaScript uses as
    long as no key is an array index. *)
Definition enumerableKeys (o : object) : list string :=
  (filter (fun kp => p_enumerable kp.2 = true) o).*1.

End Js.

(* ===================================================================== *)
(** ** JSON values and [JSON.stringify] *)
(* ===================================================================== *)

Module Json.

(** A JSON value.  A number is an integer; the embedding is meant for the
    integers JavaScript holds exactly and prints in plain decimal, those of
    magnitude at most 2^53 - 1 (see [safe] below), and has no fractions.
    The members of an object are kept in creation order; the order in which
    JavaScript lists them is [ownPropertyOrder] below. *)
Inductive t : Type :=
  | Null
  | Bool (b : bool)
  | Num (n : Z)
  | Str (s : string)
  | Arr (items : list t)
  | Obj (members : list (string * t)).

Definition members_of (j : t) : list (string * t) :=
  match j with
  | Obj ms => ms
  | _ => []
  end.

(** [o[k]] on the own members of an object literal; [None] is
    [undefined]. *)
Fixpoint lookup (ms : list (string * t)) (k : string) : option t :=
  match ms with
  | [] => None
  | (k', v) :: ms' => if String.eqb k' k then Some v else lookup ms' k
  end.

Definition member (j : t) (k : string) : option t := lookup (members_of j) k.

(** [o[k] = v] on an object literal: an existing member is overwritten where
    it stands, a new one is created after the existing ones.  The key
    ["__proto__"], when it is not an own member, reaches the accessor
    inherited from [Object.prototype] and creates no member. *)
Fixpoint assign (ms : list (string * t)) (k : string) (v : t)
  : list (string * t) :=
  match ms with
  | [] => if String.eqb k "__proto__" then [] else [(k, v)]
  | (k', v') :: ms' =>
      if String.eqb k' k then (k', v) :: ms' else (k', v') :: assign ms' k v
  end.

Definition dquote : string := String "034"%char EmptyString.
Definition backslash : string := String "092"%char EmptyString.

Definition hexDigit (n : N) : ascii :=
  ascii_of_N (if (n <? 10)%N then 48 + n else 87 + n).

(** One character of QuoteJSONString. *)
Definition escapeChar (c : ascii) : string :=
  let n := N_of_ascii c in
  if (n =? 34)%N then backslash +:+ dquote
  else if (n =? 92)%N then backslash +:+ backslash
  else if (n =? 8)%N then backslash +:+ "b"
  else if (n =? 12)%N then backslash +:+ "f"
  else if (n =? 10)%N then backslash +:+ "n"
  else if (n =? 13)%N then backslash +:+ "r"
  else if (n =? 9)%N then backslash +:+ "t"
  else if (n <? 32)%N
       then backslash +:+ "u00"
            +:+ String (hexDigit (n / 16)) (String (hexDigit (n mod 16)) EmptyString)
  else String c EmptyString.

Fixpoint escape (s : string) : string :=
  match s with
  | EmptyString => EmptyString
  | String c s' => escapeChar c +:+ escape s'
  end.

Definition quote (s : string) : string := dquote +:+ escape s +:+ dquote.

Fixpoint join (sep : string) (parts : list string) : string :=
  match parts with
  | [] => EmptyString
  | [p] => p
  | p :: ps => p +:+ sep +:+ join sep ps
  end.

Definition digitValue (c : ascii) : option N :=
  let n := N_of_ascii c in
  if ((48 <=? n) && (n <=? 57))%N then Some (n - 48)%N else None.

Fixpoint digitsValue (acc : N) (s : string) : option N :=
  match s with
  | EmptyString => Some acc
  | String c s' =>
      match digitValue c with
      | Some d => digitsValue (acc * 10 + d)%N s'
      | None => None
      end
  end.

(** The array index a property key stands for, if any: the key is the
    decimal numeral, without leading zeros, of an integer from 0 to
    2^32 - 2. *)
Definition arrayIndex (k : string) : option N :=
  match k with
  | EmptyString => None
  | String c rest =>
      match rest with
      | String _ _ => if Ascii.eqb c "0" then None else
          match digitsValue 0 k with
          | Some n => if (n <? 4294967295)%N then Some n else None
          | None => None
          end
      | EmptyString => digitValue c
      end
  end.

(** Put [x], whose index is [n], into a list that is sorted by index. *)
Fixpoint insertByIndex {A} (n : N) (x : A) (l : list (N * A)) : list (N * A) :=
  match l with
  | [] => [(n, x)]
  | (m, y) :: l' =>
      if (n <? m)%N then (n, x) :: (m, y) :: l'
      else (m, y) :: insertByIndex n x l'
  end.

Fixpoint sortByIndex {A} (l : list (N * A)) : list (N * A) :=
  match l with
  | [] => []
  | (n, x) :: l' => insertByIndex n x (sortByIndex l')
  end.

(** The order in which JavaScript lists the own properties of an object
    ([for ... in], [Object.keys], [JSON.stringify]): the keys that are array
    indices first, in ascending order, then the other keys in creation
    order. *)
Definition ownPropertyOrder {A} (ms : list (string * A)) : list (string * A) :=
  (sortByIndex (omap (fun kv => (fun n => (n, kv)) <$> arrayIndex kv.1) ms)).*2
  ++ filter (fun kv => arrayIndex kv.1 = None) ms.

(** [JSON.stringify(j)] without indentation. *)
Fixpoint stringify (j : t) : string :=
  match j with
  | Null => "null"
  | Bool true => "true"
  | Bool false => "false"
  | Num n => pretty n
  | Str s => quote s
  | Arr items => "[" +:+ join "," (List.map stringify items) +:+ "]"
  | Obj ms =>
      "{" +:+ join ","
               (List.map (fun kv => quote kv.1 +:+ ":" +:+ kv.2)
                  (ownPropertyOrder
                     (List.map (fun kv => (kv.1, stringify kv.2)) ms)))
          +:+ "}"
  end.

(** Whether every number in [j] is an integer that JavaScript holds exactly
    and prints in plain decimal: its magnitude is at most 2^53 - 1. *)
Fixpoint safe (j : t) : bool :=
  match j with
  | Num n => (Z.abs n <=? 9007199254740991)%Z
  | Arr items => forallb safe items
  | Obj ms => forallb (fun kv => safe kv.2) ms
  | _ => true
  end.

(** [ToString], as applied by a template literal.  [None] is
    [undefined]. *)
Fixpoint toString (j : t) : string :=
  match j with
  | Null => "null"
  | Bool true => "true"
  | Bool false => "false"
  | Num n => pretty n
  | Str s => s
  | Arr items =>
      join "," (List.map (fun i => match i with Null => EmptyString | _ => toString i end)
                         items)
  | Obj _ => "[object Object]"
  end.

Definition toStringOpt (v : option t) : string :=
  match v with
  | Some j => toString j
  | None => "undefined"
  end.

End Json.

(* ===================================================================== *)
(** ** The REST layer: requests, the query-parameter store, Queryable *)
(* ===================================================================== *)

Module Rest.

Inductive Method : Type := GET | POST.

(** What the transport collaborator receives.  The query parameters are
    kept beside the path; joining and percent-encoding them is the
    transport's business. *)
Record Request : Type := {
  r_method  : Method;
  r_url     : string;
  r_query   : gmap string string;
  r_headers : gmap string string;
  r_body    : option string
}.

(** A query-parameter dictionary is a mutable object; a Queryable holds a
    reference to one. *)
Definition loc := positive.

(** The state the builders run in: the dictionaries allocated so far, the
    requests handed to the transport so far, and the remote end, which
    answers the latest request of a history. *)
Record World : Type := {
  dictionaries : gmap loc (gmap string string);
  sent         : list Request;
  remote       : list Request -> Outcome Json.t
}.

Definition M (A : Type) : Type := State World A.

(** Modelled from the spec: the query-parameter map of a Queryable (the
    [Dictionary] class of [collections] is not among the sources), a mapping
    from parameter name to value with unique keys.  [alloc d] is
    [new Dictionary<string>()] filled with the entries [d]; it never
    reuses the place of a dictionary that exists. *)
Definition alloc (d : gmap string string) : M loc :=
  fun w =>
    let l := fresh (dom (dictionaries w)) in
    (l, {| dictionaries := <[l := d]> (dictionaries w);
           sent := sent w; remote := remote w |}).

(** The entries of the dictionary at [l]. *)
Definition entries (l : loc) (w : World) : gmap string string :=
  default ∅ (dictionaries w !! l).

Definition read (l : loc) : M (gmap string string) :=
  fun w => (entries l w, w).

(** Modelled from the spec: [Dictionary.add(key, value)], which is not
    among the sources: the last write under a key wins. *)
Definition add (l : loc) (k v : string) : M unit :=
  fun w =>
    (tt, {| dictionaries := <[l := <[k := v]> (entries l w)]> (dictionaries w);
            sent := sent w; remote := remote w |}).

Fixpoint dropLeadingSeparators (s : string) : string :=
  match s with
  | String "/"%char s' => dropLeadingSeparators s'
  | _ => s
  end.

Definition dropTrailingSeparators (s : string) : string :=
  String.rev (dropLeadingSeparators (String.rev s)).

(** Modelled from the spec: the path composition of the Queryable base
    class ([./queryable] and [utils/util] are imported by the sources but
    are not among them).  [withSegment url s] is [url + "/" + s] with the
    redundant separators at the joint trimmed. *)
Definition withSegment (url s : string) : string :=
  dropTrailingSeparators url +:+ "/" +:+ dropLeadingSeparators s.

Definition descend (url : string) (path : option string) : string :=
  match path with
  | Some s => withSegment url s
  | None => url
  end.

(** Modelled from the spec: an instance of the Queryable base class, which
    is not among the sources: the resolved path, and the reference to its
    own query-parameter dictionary. *)
Record Queryable : Type := {
  _url   : string;
  _query : loc
}.

(** Modelled from the spec: the constructor of the Queryable base class,
    which is not among the sources.  From a base string it starts from
    that URL with an empty dictionary; from a parent it takes the parent's
    URL and a fresh dictionary holding a copy of the parent's entries.
    Either way it then descends into [path] when one is given. *)
Definition new (baseUrl : string + Queryable) (path : option string)
  : M Queryable :=
  match baseUrl with
  | inl base =>
      let* l := alloc ∅ in
      ret {| _url := descend base path; _query := l |}
  | inr parent =>
      let* d := read (_query parent) in
      let* l := alloc d in
      ret {| _url := descend (_url parent) path; _query := l |}
  end.

(** Modelled from the spec: [Queryable.toUrl()], the resolved URL without
    the query string. *)
Definition toUrl (q : Queryable) : string := _url q.

(** Modelled from the spec: [q.query.add(k, v)] through the [query]
    accessor of the Queryable base class, which is not among the sources. *)
Definition query_add (q : Queryable) (k v : string) : M unit :=
  add (_query q) k v.

(** The optional argument of [post]: [{ body?, headers? }]. *)
Record Options : Type := {
  o_body    : option string;
  o_headers : gmap string string
}.

Definition noOptions : Options := {| o_body := None; o_headers := ∅ |}.

(** Modelled from the spec: the verb methods of the Queryable base class,
    which is not among the sources.  A verb resolves the URL and the
    current query parameters, hands one request to the transport and
    settles with its answer. *)
Definition send (m : Method) (q : Queryable) (o : Options)
  : M (Outcome Json.t) :=
  fun w =>
    let r := {| r_method := m; r_url := toUrl q;
                r_query := entries (_query q) w;
                r_headers := o_headers o; r_body := o_body o |} in
    let history := sent w ++ [r] in
    (remote w history,
     {| dictionaries := dictionaries w; sent := history;
        remote := remote w |}).

Definition get (q : Queryable) : M (Outcome Json.t) := send GET q noOptions.

Definition post (q : Queryable) (o : Options) : M (Outcome Json.t) :=
  send POST q o.

(** [p.then(f)] for a callback that runs in the world. *)
Definition and_thenM {A B} (p : Outcome A) (f : A -> M (Outcome B))
  : M (Outcome B) :=
  match p with
  | Resolved a => f a
  | Rejected e => ret (Rejected e)
  end.

(** Modelled from the spec: [Util.extend(target, source)] ([utils/util] is
    not among the sources): the members of [target] followed by those of
    [source], as in the write envelope
    [{ __metadata: { type: ... }, <properties> }]; a member of [source]
    is assigned under its key. *)
Definition extend (target source : list (string * Json.t))
  : list (string * Json.t) :=
  fold_left (fun acc kv => Json.assign acc kv.1 kv.2) source target.

(** [data.Id] on the parsed response, inside a template literal. *)
Definition readId (data : Json.t) : Outcome string :=
  match data with
  | Json.Null => Rejected TypeError
  | _ => Resolved (Json.toStringOpt (Json.member data "Id"))
  end.

End Rest.

(* ===================================================================== *)
(** ** site.ts: Field, Fields, Site *)
(* ===================================================================== *)

(** The resource classes add no state to [Queryable]; an instance of any of
    them is a [Rest.Queryable]. *)

Module Field.

(** [constructor(baseUrl: string | Queryable, path?: string)
      { super(baseUrl); }] *)
Definition new (baseUrl : string + Rest.Queryable) (path : option string)
  : Rest.M Rest.Queryable :=
  Rest.new baseUrl None.

Record FieldUpdateResult : Type := {
  u_data  : Json.t;
  u_field : Rest.Queryable
}.

(** The object [update] hands to [JSON.stringify]. *)
Definition updatePayload (properties : list (string * Json.t))
    (fieldType : string) : Json.t :=
  Json.Obj (Rest.extend
              [("__metadata", Json.Obj [("type", Json.Str fieldType)])]
              properties).

(** [update(properties, fieldType = "SP.Field")] *)
Definition update (this : Rest.Queryable)
    (properties : list (string * Json.t)) (fieldType : option string)
  : Rest.M (Outcome FieldUpdateResult) :=
  let postBody :=
    Json.stringify (updatePayload properties (default "SP.Field" fieldType)) in
  let* r := Rest.post this
              {| Rest.o_body := Some postBody;
                 Rest.o_headers := {[ "X-HTTP-Method" := "MERGE" ]} |} in
  ret (and_then r (fun data =>
         Resolved {| u_data := data; u_field := this |})).

(** [delete()] *)
Definition delete (this : Rest.Queryable) : Rest.M (Outcome Json.t) :=
  Rest.post this
    {| Rest.o_body := None;
       Rest.o_headers := {[ "X-HTTP-Method" := "DELETE" ]} |}.

(** [`${show}`] for a boolean. *)
Definition showBool (show : bool) : string :=
  if show then "true" else "false".

(** [setShowInDisplayForm(show)] *)
Definition setShowInDisplayForm (this : Rest.Queryable) (show : bool)
  : Rest.M (Outcome Json.t) :=
  let* q := new (inr this)
              (Some ("setshowindisplayform(" +:+ showBool show +:+ ")")) in
  Rest.post q Rest.noOptions.

(** [setShowInEditForm(show)] *)
Definition setShowInEditForm (this : Rest.Queryable) (show : bool)
  : Rest.M (Outcome Json.t) :=
  let* q := new (inr this)
              (Some ("setshowineditform(" +:+ showBool show +:+ ")")) in
  Rest.post q Rest.noOptions.

(** [setShowInNewForm(show)] *)
Definition setShowInNewForm (this : Rest.Queryable) (show : bool)
  : Rest.M (Outcome Json.t) :=
  let* q := new (inr this)
              (Some ("setshowinnewform(" +:+ showBool show +:+ ")")) in
  Rest.post q Rest.noOptions.

End Field.

Module Fields.

(** [constructor(baseUrl: string | Queryable, path = "fields")
      { super(baseUrl, path); }] *)
Definition new (baseUrl : string + Rest.Queryable) (path : option string)
  : Rest.M Rest.Queryable :=
  Rest.new baseUrl (Some (default "fields" path)).

(** [getByTitle(title)]: [new Field(this, `getByTitle('${title}')`)] *)
Definition getByTitle (this : Rest.Queryable) (title : string)
  : Rest.M Rest.Queryable :=
  Field.new (inr this) (Some ("getByTitle('" +:+ title +:+ "')")).

(** [getById(id)]: [new Field(this.toUrl().concat(`('${id}')`))] *)
Definition getById (this : Rest.Queryable) (id : string)
  : Rest.M Rest.Queryable :=
  Field.new (inl (Rest.toUrl this +:+ ("('" +:+ id +:+ "')"))) None.

Record FieldAddResult : Type := {
  a_data  : Json.t;
  a_field : Rest.Queryable
}.

(** The callback both creation methods chain on the POST:
    [{ data: data, field: this.getById(data.Id) }]. *)
Definition added (this : Rest.Queryable) (data : Json.t)
  : Rest.M (Outcome FieldAddResult) :=
  Rest.and_thenM (Rest.readId data) (fun id =>
    let* f := getById this id in
    ret (Resolved {| a_data := data; a_field := f |})).

(** [info] in [createFieldAsXml]: a string becomes [{ SchemaXml: xml }],
    a creation-information object is taken as it is. *)
Definition creationInfo (xml : string + list (string * Json.t))
  : list (string * Json.t) :=
  match xml with
  | inl s => [("SchemaXml", Json.Str s)]
  | inr info => info
  end.

(** The object [createFieldAsXml] hands to [JSON.stringify]. *)
Definition createFieldAsXmlPayload (xml : string + list (string * Json.t))
  : Json.t :=
  Json.Obj
    [("parameters",
      Json.Obj (Rest.extend
                  [("__metadata",
                    Json.Obj [("type",
                               Json.Str "SP.XmlSchemaFieldCreationInformation")])]
                  (creationInfo xml)))].

(** [createFieldAsXml(xml)] *)
Definition createFieldAsXml (this : Rest.Queryable)
    (xml : string + list (string * Json.t))
  : Rest.M (Outcome FieldAddResult) :=
  let postBody := Json.stringify (createFieldAsXmlPayload xml) in
  let* q := new (inr this) (Some "createfieldasxml") in
  let* r := Rest.post q {| Rest.o_body := Some postBody;
                           Rest.o_headers := ∅ |} in
  Rest.and_thenM r (added this).

(** The object [add] hands to [JSON.stringify]. *)
Definition addPayload (title fieldType : string)
    (properties : list (string * Json.t)) : Json.t :=
  Json.Obj (Rest.extend
              [("__metadata", Json.Obj [("type", Json.Str fieldType)]);
               ("Title", Json.Str title)]
              properties).

(** [add(title, fieldType, properties = {})] *)
Definition add (this : Rest.Queryable) (title fieldType : string)
    (properties : option (list (string * Json.t)))
  : Rest.M (Outcome FieldAddResult) :=
  let postBody :=
    Json.stringify (addPayload title fieldType (default [] properties)) in
  let* r := Rest.post this {| Rest.o_body := Some postBody;
                              Rest.o_headers := ∅ |} in
  Rest.and_thenM r (added this).

(** [addText(title, maxLength = 255, properties?)]:
    [this.add(title, "SP.FieldText",
              Util.extend({ FieldTypeKind: 2 }, properties))].
    The body never mentions [maxLength].  A missing [properties] gives
    [Util.extend] nothing to copy. *)
Definition addText (this : Rest.Queryable) (title : string)
    (maxLength : option Z) (properties : option (list (string * Json.t)))
  : Rest.M (Outcome FieldAddResult) :=
  add this title "SP.FieldText"
    (Some (Rest.extend [("FieldTypeKind", Json.Num 2)]
                       (default [] properties))).

(** [addCalculated(title, formula, dateFormat,
                   outputType = Types.FieldTypes.Text, properties?)].
    [dateFormat] and [outputType] are values of enumerations declared in
    [./types], which is not among the sources; they are put into the object
    as they come.  [fieldTypesText] is the value of [Types.FieldTypes.Text],
    used when [outputType] is left out. *)
Definition addCalculated (fieldTypesText : Json.t) (this : Rest.Queryable)
    (title formula : string) (dateFormat : Json.t)
    (outputType : option Json.t)
    (properties : option (list (string * Json.t)))
  : Rest.M (Outcome FieldAddResult) :=
  add this title "SP.FieldCalculated"
    (Some (Rest.extend
             [("DateFormat", dateFormat);
              ("FieldTypeKind", Json.Num 17);
              ("Formula", Json.Str formula);
              ("OutputType", default fieldTypesText outputType)]
             (default [] properties))).

(** [addDateTime(title, displayFormat, calendarType, friendlyDisplayFormat,
                 properties?)] *)
Definition addDateTime (this : Rest.Queryable) (title : string)
    (displayFormat calendarType friendlyDisplayFormat : Json.t)
    (properties : option (list (string * Json.t)))
  : Rest.M (Outcome FieldAddResult) :=
  add this title "SP.FieldDateTime"
    (Some (Rest.extend
             [("DateTimeCalendarType", calendarType);
              ("DisplayFormat", displayFormat);
              ("FieldTypeKind", Json.Num 4);
              ("FriendlyDisplayFormat", friendlyDisplayFormat)]
             (default [] properties))).

End Fields.

Module Site.

(** [constructor(baseUrl: string, path?: string) { super(baseUrl, path); }] *)
Definition new (baseUrl : string) (path : option string)
  : Rest.M Rest.Queryable :=
  Rest.new (inl baseUrl) path.

(** [getContextInfo()] *)
Definition getContextInfo (this : Rest.Queryable)
  : Rest.M (Outcome Json.t) :=
  let* q := new "_api/contextinfo" None in
  Rest.post q Rest.noOptions.

(** [getDocumentLibraries(absoluteWebUrl)] *)
Definition getDocumentLibraries (this : Rest.Queryable)
    (absoluteWebUrl : string) : Rest.M (Outcome Json.t) :=
  let* q := Rest.new (inl "_api/sp.web.getdocumentlibraries(@v)") None in
  let* _ := Rest.query_add q "@v" ("'" +:+ absoluteWebUrl +:+ "'") in
  Rest.get q.

(** [getWebUrlFromPageUrl(absolutePageUrl)] *)
Definition getWebUrlFromPageUrl (this : Rest.Queryable)
    (absolutePageUrl : string) : Rest.M (Outcome Json.t) :=
  let* q := Rest.new (inl "_api/sp.web.getweburlfrompageurl(@v)") None in
  let* _ := Rest.query_add q "@v" ("'" +:+ absolutePageUrl +:+ "'") in
  Rest.get q.

End Site.

(* ===================================================================== *)
(** ** CachingConfigurationProvider *)
(* ===================================================================== *)

Module Caching.

(** Modelled from the spec: a cache record
    ([./cachingConfigurationProvider] is imported by the sources but is
    not among them): the cached mapping and its absolute expiration
    time. *)
Record CacheRecord : Type := {
  c_value      : Js.object;
  c_expiration : Z
}.

(** Modelled from the spec: [CachingConfigurationProvider(inner, cacheKey,
    ttlSeconds?)], which is not among the sources. *)
Record Provider (I : Type) : Type := {
  wrappedProvider : I;
  cacheKey        : string;
  ttlSeconds      : option Z
}.
Arguments wrappedProvider {I} _.
Arguments cacheKey {I} _.
Arguments ttlSeconds {I} _.

(** The process-wide cache, and the number of loads the inner providers
    have been asked for so far. *)
Record Runtime : Type := {
  cache : gmap string CacheRecord;
  loads : nat
}.

Section WithInner.

(** The wrapped provider type with its [getConfiguration()]:
    [load i n] is how the [n]-th load of this run settles when it is
    asked of [i]. *)
Context {I : Type} (load : I -> nat -> Outcome Js.object).
(** The expiration used when no [ttlSeconds] is given. *)
Variable defaultTtl : Z.

(** The record under the key of [p] that has not expired at [now]. *)
Definition unexpired (p : Provider I) (now : Z) (rt : Runtime)
  : option CacheRecord :=
  match cache rt !! cacheKey p with
  | Some r => if (now <? c_expiration r)%Z then Some r else None
  | None => None
  end.

(** Modelled from the spec: [CachingConfigurationProvider
    .getConfiguration()], which is not among the sources, called at time
    [now].  A hit resolves with the stored mapping.  A miss or an
    expired record asks the inner provider; success stores a new
    record expiring at [now + ttl] and resolves with the value, failure
    passes the inner error on and stores nothing. *)
Definition getConfiguration (p : Provider I) (now : Z)
  : State Runtime (Outcome Js.object) :=
  fun rt =>
    match unexpired p now rt with
    | Some r => (Resolved (c_value r), rt)
    | None =>
        match load (wrappedProvider p) (loads rt) with
        | Resolved v =>
            let r := {| c_value := v;
                        c_expiration :=
                          (now + default defaultTtl (ttlSeconds p))%Z |} in
            (Resolved v,
             {| cache := <[cacheKey p := r]> (cache rt);
                loads := S (loads rt) |})
        | Rejected e =>
            (Rejected e, {| cache := cache rt; loads := S (loads rt) |})
        end
    end.

End WithInner.

End Caching.

(* ===================================================================== *)
(** ** SPListConfigurationProvider *)
(* ===================================================================== *)

Module SPList.

(** An element of the array the list query resolves with.  The code
    types it as [{ Title: string, Value: string }]; a field that is
    missing from the payload reads as [undefined], here [None]. *)
Record Row : Type := { Title : Js.value; Value : Js.value }.

(** The source file holds both sides of an unresolved merge: the part
    between [<<<<<<< HEAD] and [=======], and the part between [=======]
    and [>>>>>>> 159efbb].  Each method is embedded once per side. *)
Inductive Side : Type := HEAD | Incoming.

(** [constructor(private sourceWeb: Web, private sourceListTitle = "config")]
    ([Web] is a Queryable). *)
Record Provider : Type := {
  sourceWeb       : Rest.Queryable;
  sourceListTitle : string
}.

Definition new (sourceWeb : Rest.Queryable) (sourceListTitle : option string)
  : Provider :=
  {| sourceWeb := sourceWeb;
     sourceListTitle := default "config" sourceListTitle |}.

(** [get web()] *)
Definition web (this : Provider) : Rest.Queryable := sourceWeb this.

(** [get listTitle()] *)
Definition listTitle (this : Provider) : string := sourceListTitle this.

(** [this.webUrl], which the HEAD side reads: the class has the members
    [sourceWeb], [sourceListTitle], [web], [listTitle], [getConfiguration]
    and [asCaching] and no [webUrl], so the read gives [undefined]. *)
Definition webUrl (this : Provider) : Js.value := None.

(** The property key a row is stored under: [ToPropertyKey(row.Title)]. *)
Definition key (r : Row) : string := Js.toPropertyKey (Title r).

(** HEAD side of [getConfiguration], the callback of [data.forEach]:
    [configuration[i.Title] = i.Value]. *)
Definition assignRow (configuration : Js.object) (i : Row)
  : Outcome Js.object :=
  Js.set configuration (key i) (Value i).

(** Incoming side of [getConfiguration], the callback of [data.reduce]:
    [Object.defineProperty(configuration, item.Title,
       { configurable: false, enumerable: false, value: item.Value,
         writable: false })]. *)
Definition defineRow (configuration : Js.object) (item : Row)
  : Outcome Js.object :=
  Js.defineProperty configuration (key item)
    {| Js.p_value := Value item;
       Js.p_writable := false;
       Js.p_enumerable := false;
       Js.p_configurable := false |}.

(** [getConfiguration()], as a function of how the list query
    [...items.select("Title", "Value").get()] settles. *)
Definition getConfiguration (side : Side) (response : Outcome (list Row))
  : Outcome Js.object :=
  match side with
  | HEAD => and_then response (fun data => reduce assignRow data Js.empty)
  | Incoming => and_then response (fun data => reduce defineRow data Js.empty)
  end.

(** [asCaching()]:
    HEAD side      [`splist_${this.webUrl}+${this.listTitle}`],
    incoming side  [`splist_${this.web.toUrl()}+${this.listTitle}`],
    then [new CachingConfigurationProvider(this, cacheKey)]. *)
Definition asCaching (side : Side) (this : Provider)
  : Caching.Provider Provider :=
  let cacheKey :=
    match side with
    | HEAD =>
        "splist_" +:+ Js.toString (webUrl this) +:+ "+" +:+ listTitle this
    | Incoming =>
        "splist_" +:+ Rest.toUrl (web this) +:+ "+" +:+ listTitle this
    end in
  {| Caching.wrappedProvider := this;
     Caching.cacheKey := cacheKey;
     Caching.ttlSeconds := None |}.

(** The attributes a property gets on either side: created by assignment
    on the HEAD side, by the descriptor of [defineRow] on the incoming
    side. *)
Definition stored (side : Side) (v : Js.value) : Js.property :=
  match side with
  | HEAD => Js.Property v true true true
  | Incoming => Js.Property v false false false
  end.

Definition storeRow (side : Side) : Js.object -> Row -> Outcome Js.object :=
  match side with
  | HEAD => assignRow
  | Incoming => defineRow
  end.

End SPList.

(** The rows of the example response
    [{"value":[{"Title":"A","Value":"1"},{"Title":"B","Value":"2"}]}]. *)
Definition rowsAB : list SPList.Row :=
  [ {| SPList.Title := Some "A"; SPList.Value := Some "1" |};
    {| SPList.Title := Some "B"; SPList.Value := Some "2" |} ].

(** Two rows with the same Title. *)
Definition rowsAA : list SPList.Row :=
  [ {| SPList.Title := Some "A"; SPList.Value := Some "1" |};
    {| SPList.Title := Some "A"; SPList.Value := Some "2" |} ].

(** The example rows with the first one repeated. *)
Definition rowsABA : list SPList.Row :=
  [ {| SPList.Title := Some "A"; SPList.Value := Some "1" |};
    {| SPList.Title := Some "B"; SPList.Value := Some "2" |};
    {| SPList.Title := Some "A"; SPList.Value := Some "1" |} ].

(** A row without a Title. *)
Definition rowsUntitled : list SPList.Row :=
  [ {| SPList.Title := None; SPList.Value := Some "1" |} ].


(* ===================================================================== *)
(** ** Vocabulary of the properties below *)
(* ===================================================================== *)

(** Every property can be assigned to. *)
Definition all_writable (o : Js.object) : Prop :=
  forall k p, (k, p) ∈ o -> Js.p_writable p = true.

(** Every property is read-only, hidden from enumeration and final. *)
Definition frozen (o : Js.object) : Prop :=
  forall k p, (k, p) ∈ o ->
    Js.p_writable p = false /\ Js.p_enumerable p = false
    /\ Js.p_configurable p = false.

(** Every property of [o] holds the Value of one of the rows [seen], stored
    under that row's key. *)
Definition stores_rows (seen : list SPList.Row) (o : Js.object) : Prop :=
  forall k p, (k, p) ∈ o ->
    exists r, r ∈ seen /\ SPList.key r = k /\ SPList.Value r = Js.p_value p.

(** What an object built by assignments looks like: every property is
    writable, enumerable and configurable, no key occurs twice, and
    ["__proto__"] is not among the keys. *)
Definition assigned (o : Js.object) : Prop :=
  (forall k p, (k, p) ∈ o -> p = Js.Property (Js.p_value p) true true true)
  /\ NoDup (Js.ownKeys o)
  /\ "__proto__" ∉ Js.ownKeys o.

(** The Value of the last row stored under [k], if any. *)
Fixpoint lastValue (rows : list SPList.Row) (k : string) : option Js.value :=
  match rows with
  | [] => None
  | r :: rest =>
      match lastValue rest k with
      | Some v => Some v
      | None => if String.eqb (SPList.key r) k then Some (SPList.Value r) else None
      end
  end.

(** Rows that share a key share the Value. *)
Definition consistent (rows : list SPList.Row) : Prop :=
  forall r1 r2, r1 ∈ rows -> r2 ∈ rows ->
    SPList.key r1 = SPList.key r2 -> SPList.Value r1 = SPList.Value r2.

(** Whether the character [c] occurs in [s]. *)
Fixpoint occurs (c : ascii) (s : string) : bool :=
  match s with
  | EmptyString => false
  | String c' s' => if Ascii.eqb c' c then true else occurs c s'
  end.

(** The methods of [Field], [Fields] and [Site], with their arguments. *)
Inductive Call : Type :=
  | GetByTitle (title : string)
  | GetById (id : string)
  | CreateFieldAsXml (xml : string + list (string * Json.t))
  | Add (title fieldType : string) (properties : option (list (string * Json.t)))
  | AddText (title : string) (maxLength : option Z)
            (properties : option (list (string * Json.t)))
  | AddCalculated (fieldTypesText : Json.t) (title formula : string)
                  (dateFormat : Json.t) (outputType : option Json.t)
                  (properties : option (list (string * Json.t)))
  | AddDateTime (title : string)
                (displayFormat calendarType friendlyDisplayFormat : Json.t)
                (properties : option (list (string * Json.t)))
  | Update (properties : list (string * Json.t)) (fieldType : option string)
  | Delete
  | SetShowInDisplayForm (show : bool)
  | SetShowInEditForm (show : bool)
  | SetShowInNewForm (show : bool)
  | GetContextInfo
  | GetDocumentLibraries (absoluteWebUrl : string)
  | GetWebUrlFromPageUrl (absolutePageUrl : string).

(** Run a computation for its effect on the world. *)
Definition discard {A} (m : Rest.M A) : Rest.M unit :=
  let* _ := m in ret tt.

(** The call [c] on the receiver [this]. *)
Definition perform (c : Call) (this : Rest.Queryable) : Rest.M unit :=
  match c with
  | GetByTitle title => discard (Fields.getByTitle this title)
  | GetById id => discard (Fields.getById this id)
  | CreateFieldAsXml xml => discard (Fields.createFieldAsXml this xml)
  | Add title fieldType properties =>
      discard (Fields.add this title fieldType properties)
  | AddText title maxLength properties =>
      discard (Fields.addText this title maxLength properties)
  | AddCalculated text title formula dateFormat outputType properties =>
      discard (Fields.addCalculated text this title formula dateFormat
                 outputType properties)
  | AddDateTime title displayFormat calendarType friendly properties =>
      discard (Fields.addDateTime this title displayFormat calendarType
                 friendly properties)
  | Update properties fieldType =>
      discard (Field.update this properties fieldType)
  | Delete => discard (Field.delete this)
  | SetShowInDisplayForm show => discard (Field.setShowInDisplayForm this show)
  | SetShowInEditForm show => discard (Field.setShowInEditForm this show)
  | SetShowInNewForm show => discard (Field.setShowInNewForm this show)
  | GetContextInfo => discard (Site.getContextInfo this)
  | GetDocumentLibraries url => discard (Site.getDocumentLibraries this url)
  | GetWebUrlFromPageUrl url => discard (Site.getWebUrlFromPageUrl this url)
  end.

(** The verb a call uses, if it talks to the transport at all. *)
Definition verb (c : Call) : option Rest.Method :=
  match c with
  | GetByTitle _ | GetById _ => None
  | GetDocumentLibraries _ | GetWebUrlFromPageUrl _ => Some Rest.GET
  | _ => Some Rest.POST
  end.

(** A computation that writes to no dictionary that exists, and keeps the
    remote end. *)
Definition preserves {A} (m : Rest.M A) : Prop :=
  forall (w : Rest.World) (l : Rest.loc),
    l ∈ dom (Rest.dictionaries w) ->
    Rest.dictionaries (m w).2 !! l = Rest.dictionaries w !! l
    /\ l ∈ dom (Rest.dictionaries (m w).2).

(** The [X-HTTP-Method] header a call sets, if any. *)
Definition tunnelled (c : Call) : option string :=
  match c with
  | Update _ _ => Some "MERGE"
  | Delete => Some "DELETE"
  | _ => None
  end.

(** A computation that hands the transport exactly [n] requests, each of
    them satisfying [P], and leaves the earlier history as it is. *)
Definition emits {A} (m : Rest.M A) (n : nat) (P : Rest.Request -> Prop)
  : Prop :=
  forall w : Rest.World,
    exists new, Rest.sent (m w).2 = Rest.sent w ++ new
                /\ length new = n /\ Forall P new.

(** A chain of derivations and query-parameter updates, starting at some
    Queryable: [Derive path] constructs a child of the current node
    ([new Queryable(current, path)]) and moves to it, [AddQuery k v] is
    [current.query.add(k, v)]. *)
Inductive Step : Type :=
  | Derive (path : option string)
  | AddQuery (k v : string).

Fixpoint run (steps : list Step) (q : Rest.Queryable) : Rest.M Rest.Queryable :=
  match steps with
  | [] => ret q
  | Derive path :: rest =>
      let* child := Rest.new (inr q) path in
      run rest child
  | AddQuery k v :: rest =>
      let* _ := Rest.query_add q k v in
      run rest q
  end.

(** A serialised body with every double quote shown as a single quote, to
    write expected bodies down legibly. *)
Fixpoint singleQuoted (s : string) : string :=
  match s with
  | EmptyString => EmptyString
  | String c s' =>
      String (if (N_of_ascii c =? 34)%N then "'"%char else c) (singleQuoted s')
  end.

(** An inner provider whose first load fails with status 500 and whose
    later loads resolve with the mapping of the example rows. *)
Definition flakyLoad (_ : unit) (n : nat) : Outcome Js.object :=
  match n with
  | O => Rejected (RequestError 500 "Internal Server Error")
  | S _ => Resolved [("A", Js.Property (Some "1") true true true);
                     ("B", Js.Property (Some "2") true true true)]
  end.

Definition flakyProvider : Caching.Provider unit :=
  {| Caching.wrappedProvider := tt;
     Caching.cacheKey := "splist_https://contoso/sites/dev/_api/web+config";
     Caching.ttlSeconds := Some 60%Z |}.

(** A process that has cached nothing and loaded nothing yet. *)
Definition runtime0 : Caching.Runtime :=
  {| Caching.cache := ∅; Caching.loads := 0 |}.

(** A world in which nothing has been built or sent yet, with a remote end
    that answers every request with [null]. *)
Definition world0 : Rest.World :=
  {| Rest.dictionaries := ∅;
     Rest.sent := [];
     Rest.remote := fun _ => Resolved Json.Null |}.

(* ===================================================================== *)
(** * Properties *)
(* ===================================================================== *)

(** ** Own properties of plain objects *)

Section JsFacts.

Implicit Types (o : Js.object) (k : string) (p : Js.property).

Lemma getOwnProperty_elem o k p :
  Js.getOwnProperty o k = Some p -> (k, p) ∈ o.
Proof.
  induction o as [|[k' p'] o IH]; simpl; [discriminate|].
  destruct (String.eqb_spec k' k) as [->|Hne].
  - intros [= ->]. left.
  - intros H. right. auto.
Qed.

Lemma getOwnProperty_None o k :
  Js.getOwnProperty o k = None <-> k ∉ Js.ownKeys o.
Proof.
  unfold Js.ownKeys.
  induction o as [|[k' p'] o IH]; simpl.
  - split; [intros _; apply not_elem_of_nil | done].
  - rewrite not_elem_of_cons.
    destruct (String.eqb_spec k' k) as [->|Hne]; split.
    + discriminate.
    + intros [? _]. done.
    + intros H. split; [congruence | by apply IH].
    + intros [_ H]. by apply IH.
Qed.

Lemma getOwnProperty_Some_key o k p :
  Js.getOwnProperty o k = Some p -> k ∈ Js.ownKeys o.
Proof.
  intros H. destruct (decide (k ∈ Js.ownKeys o)) as [|Hn]; [done|].
  apply getOwnProperty_None in Hn. congruence.
Qed.


Lemma ownKeys_app o k p : Js.ownKeys (o ++ [(k, p)]) = Js.ownKeys o ++ [k].
Proof. unfold Js.ownKeys. by rewrite fmap_app. Qed.

Lemma ownKeys_replaceOwn o k p :
  Js.ownKeys (Js.replaceOwn o k p) = Js.ownKeys o.
Proof.
  unfold Js.ownKeys.
  induction o as [|[k0 p0] o IH]; csimpl; [done|].
  destruct (String.eqb k0 k); csimpl; [done | by f_equal].
Qed.

Lemma elem_of_replaceOwn o k p k1 p1 :
  (k1, p1) ∈ Js.replaceOwn o k p -> (k1, p1) ∈ o \/ p1 = p.
Proof.
  induction o as [|[k0 p0] o IH]; simpl; [by left|].
  destruct (String.eqb_spec k0 k) as [->|Hne].
  - rewrite !elem_of_cons. intros [[= -> ->]|H]; [by right | left; by right].
  - rewrite !elem_of_cons. intros [H|H]; [left; by left|].
    destruct (IH H) as [?|?]; [left; by right | by right].
Qed.

End JsFacts.

(** ** SPListConfigurationProvider.getConfiguration *)

Section GetConfigurationFacts.

Import SPList.
Implicit Types (side : Side) (rows : list Row) (o m : Js.object) (r : Row).

Lemma getConfiguration_reduce side rows :
  getConfiguration side (Resolved rows) = reduce (storeRow side) rows Js.empty.
Proof. by destruct side. Qed.

(** A row whose key is new is appended, with the attributes of its side. *)
Lemma storeRow_fresh side o r :
  key r ∉ Js.ownKeys o ->
  (side = HEAD -> key r <> "__proto__") ->
  storeRow side o r = Resolved (o ++ [(key r, stored side (Value r))]).
Proof.
  intros Hfresh Hproto. apply getOwnProperty_None in Hfresh.
  destruct side; simpl; unfold assignRow, defineRow, Js.set, Js.defineProperty;
    rewrite Hfresh; [|done].
  destruct (String.eqb_spec (key r) "__proto__") as [E|_]; [|done].
  by destruct Hproto.
Qed.

(** Rows with pairwise distinct new keys are stored one after the other. *)
Lemma reduce_storeRow_fresh side rows : forall o,
  NoDup (key <$> rows) ->
  (forall k, k ∈ key <$> rows -> k ∉ Js.ownKeys o) ->
  (side = HEAD -> "__proto__" ∉ key <$> rows) ->
  reduce (storeRow side) rows o =
    Resolved (o ++ ((fun r => (key r, stored side (Value r))) <$> rows)).
Proof.
  induction rows as [|r rows IH]; intros o Hnd Hfresh Hproto; csimpl.
  - by rewrite app_nil_r.
  - apply NoDup_cons in Hnd as [Hr Hnd].
    rewrite storeRow_fresh.
    + rewrite IH, <- app_assoc; [done | done | |].
      * intros k Hk. rewrite ownKeys_app, not_elem_of_app, not_elem_of_cons.
        split; [apply Hfresh; by right|].
        split; [intros ->; done | apply not_elem_of_nil].
      * intros Hs Hin. apply (Hproto Hs). by right.
    + apply Hfresh. left.
    + intros Hs E. apply (Hproto Hs). rewrite <- E. left.
Qed.

Lemma getOwnProperty_stored side rows r :
  NoDup (key <$> rows) -> r ∈ rows ->
  Js.getOwnProperty ((fun r => (key r, stored side (Value r))) <$> rows) (key r)
    = Some (stored side (Value r)).
Proof.
  induction rows as [|r0 rows IH]; intros Hnd Hin; csimpl.
  - by apply elem_of_nil in Hin.
  - apply NoDup_cons in Hnd as [Hr0 Hnd].
    apply elem_of_cons in Hin as [->|Hin].
    + by rewrite String.eqb_refl.
    + destruct (String.eqb_spec (key r0) (key r)) as [E|_]; [|by apply IH].
      exfalso. apply Hr0. rewrite E. by apply list_elem_of_fmap_2.
Qed.

Lemma ownKeys_stored side rows :
  Js.ownKeys ((fun r => (key r, stored side (Value r))) <$> rows) = key <$> rows.
Proof. unfold Js.ownKeys. rewrite <- list_fmap_compose. done. Qed.

Lemma enumerableKeys_stored side rows :
  Js.enumerableKeys ((fun r => (key r, stored side (Value r))) <$> rows) =
    match side with HEAD => key <$> rows | Incoming => [] end.
Proof.
  unfold Js.enumerableKeys.
  induction rows as [|r rows IH]; [by destruct side|].
  rewrite fmap_cons. destruct side; simpl in *.
  - f_equal. exact IH.
  - exact IH.
Qed.

End GetConfigurationFacts.

(** ** getConfiguration on arbitrary rows *)

Section ArbitraryRows.

Import SPList.
Implicit Types (rows seen : list Row) (o m : Js.object) (r : Row).

Lemma sameValue_false (a b : Js.value) : Js.sameValue a b = false -> a <> b.
Proof.
  destruct a as [x|], b as [y|]; simpl; try done.
  intros H [= ->]. by rewrite String.eqb_refl in H.
Qed.

(** HEAD side: an assignment to an object made by assignments never
    throws, keeps every key, and adds its own unless it is ["__proto__"]. *)
Lemma assignRow_writable o r :
  all_writable o ->
  exists o', assignRow o r = Resolved o' /\ all_writable o'
    /\ (forall k, k ∈ Js.ownKeys o -> k ∈ Js.ownKeys o')
    /\ (key r <> "__proto__" -> key r ∈ Js.ownKeys o').
Proof.
  intros Hw. unfold assignRow, Js.set.
  destruct (Js.getOwnProperty o (key r)) as [p|] eqn:E.
  - rewrite (Hw _ _ (getOwnProperty_elem _ _ _ E)).
    eexists; split; [done|]. split; [|split].
    + intros k1 p1 H. apply elem_of_replaceOwn in H as [H| ->]; [eauto | done].
    + intros k. by rewrite ownKeys_replaceOwn.
    + intros _. rewrite ownKeys_replaceOwn.
      by eapply getOwnProperty_Some_key.
  - destruct (String.eqb_spec (key r) "__proto__") as [Ep|Ep].
    + eexists; split; [done|]. by repeat split.
    + eexists; split; [done|]. split; [|split].
      * intros k1 p1 H. apply elem_of_app in H as [H|H]; [eauto|].
        apply list_elem_of_singleton in H. by inversion H.
      * intros k Hk. rewrite ownKeys_app. apply elem_of_app. by left.
      * intros _. rewrite ownKeys_app. apply elem_of_app. right. left.
Qed.

Lemma reduce_assignRow rows : forall o,
  all_writable o ->
  exists m, reduce assignRow rows o = Resolved m
    /\ (forall k, k ∈ Js.ownKeys o -> k ∈ Js.ownKeys m)
    /\ (forall r, r ∈ rows -> key r <> "__proto__" -> key r ∈ Js.ownKeys m).
Proof.
  induction rows as [|r rows IH]; intros o Hw; simpl.
  - exists o. split; [done|]. split; [done|].
    intros r H. by apply elem_of_nil in H.
  - destruct (assignRow_writable o r Hw) as (o' & -> & Hw' & Hkeep & Hnew).
    destruct (IH o' Hw') as (m & -> & Hkeep' & Hrows).
    exists m. split; [done|]. split; [auto|].
    intros r0 H Hp. apply elem_of_cons in H as [->|H]; auto.
Qed.

(** Incoming side: defining a row on an object made of earlier rows either
    adds or confirms the row's key, or throws because an earlier row put a
    different Value under that key. *)
Lemma defineRow_frozen o r seen :
  frozen o -> stores_rows seen o ->
  match defineRow o r with
  | Resolved o' =>
      frozen o' /\ stores_rows (seen ++ [r]) o'
      /\ (forall k, k ∈ Js.ownKeys o -> k ∈ Js.ownKeys o')
      /\ key r ∈ Js.ownKeys o'
  | Rejected e =>
      e = TypeError
      /\ exists r1, r1 ∈ seen /\ key r1 = key r /\ Value r1 <> Value r
  end.
Proof.
  intros Hf Hs. unfold defineRow, Js.defineProperty.
  destruct (Js.getOwnProperty o (key r)) as [cur|] eqn:E.
  - pose proof (getOwnProperty_elem _ _ _ E) as Hin.
    destruct (Hf _ _ Hin) as (Hw & He & Hc). rewrite Hc, He, Hw. simpl.
    destruct (Js.sameValue (Value r) (Js.p_value cur)) eqn:Esame.
    + split; [done|]. split; [|split].
      * intros k p H. destruct (Hs k p H) as (r1 & H1 & H2 & H3).
        exists r1. split; [apply elem_of_app; by left | done].
      * done.
      * by eapply getOwnProperty_Some_key.
    + split; [done|].
      destruct (Hs _ _ Hin) as (r1 & H1 & H2 & H3).
      exists r1. repeat split; [done..|].
      rewrite H3. intros Heq. apply sameValue_false in Esame. congruence.
  - split; [|split; [|split]].
    + intros k p H. apply elem_of_app in H as [H|H]; [eauto|].
      apply list_elem_of_singleton in H. by inversion H.
    + intros k p H. apply elem_of_app in H as [H|H].
      * destruct (Hs k p H) as (r1 & H1 & H2 & H3).
        exists r1. split; [apply elem_of_app; by left | done].
      * apply list_elem_of_singleton in H. inversion H; subst.
        exists r. split; [apply elem_of_app; right; left | done].
    + intros k Hk. rewrite ownKeys_app. apply elem_of_app. by left.
    + rewrite ownKeys_app. apply elem_of_app. right. left.
Qed.

Lemma reduce_defineRow rows : forall o seen,
  frozen o -> stores_rows seen o ->
  match reduce defineRow rows o with
  | Resolved m =>
      (forall k, k ∈ Js.ownKeys o -> k ∈ Js.ownKeys m)
      /\ (forall r, r ∈ rows -> key r ∈ Js.ownKeys m)
  | Rejected e =>
      e = TypeError
      /\ exists r1 r2, r1 ∈ seen ++ rows /\ r2 ∈ seen ++ rows
           /\ key r1 = key r2 /\ Value r1 <> Value r2
  end.
Proof.
  induction rows as [|r rows IH]; intros o seen Hf Hs; simpl.
  - split; [done|]. intros r H. by apply elem_of_nil in H.
  - pose proof (defineRow_frozen o r seen Hf Hs) as Hstep.
    destruct (defineRow o r) as [o'|e].
    + destruct Hstep as (Hf' & Hs' & Hkeep & Hnew).
      specialize (IH o' (seen ++ [r]) Hf' Hs').
      rewrite <- app_assoc in IH. simpl in IH.
      destruct (reduce defineRow rows o') as [m|e]; [|done].
      destruct IH as [Hkeep' Hrows]. split; [auto|].
      intros r0 H. apply elem_of_cons in H as [->|H]; auto.
    + destruct Hstep as (-> & r1 & H1 & H2 & H3). split; [done|].
      exists r1, r. repeat split; [| |done..].
      * apply elem_of_app. by left.
      * apply elem_of_app. right. left.
Qed.

End ArbitraryRows.

(** ** Claims on SPListConfigurationProvider.getConfiguration *)

(** The example response on either side of the merge. *)
Example getConfiguration_rowsAB_HEAD :
  SPList.getConfiguration SPList.HEAD (Resolved rowsAB) =
    Resolved [("A", Js.Property (Some "1") true true true);
              ("B", Js.Property (Some "2") true true true)].
Proof. reflexivity. Qed.

Example getConfiguration_rowsAB_Incoming :
  SPList.getConfiguration SPList.Incoming (Resolved rowsAB) =
    Resolved [("A", Js.Property (Some "1") false false false);
              ("B", Js.Property (Some "2") false false false)].
Proof. reflexivity. Qed.

(** C1, as stated, fails.  On the incoming side of the merge the example
    rows A/B give a mapping whose enumeration yields no key at all, so it
    does not yield exactly A and B.  And no mapping associates each row's
    Title to its Value when two rows share a Title: on the HEAD side the
    later row replaces the earlier one, on the incoming side the call
    rejects. *)
Lemma getConfiguration_claim_fails :
  ~ (exists m,
       SPList.getConfiguration SPList.Incoming (Resolved rowsAB) = Resolved m
       /\ forall k, k ∈ Js.enumerableKeys m <-> k = "A" \/ k = "B")
  /\ ~ (exists m,
       SPList.getConfiguration SPList.HEAD (Resolved rowsAA) = Resolved m
       /\ forall r, r ∈ rowsAA -> Js.get m (SPList.key r) = Some (SPList.Value r))
  /\ SPList.getConfiguration SPList.Incoming (Resolved rowsAA)
     = Rejected TypeError.
Proof.
  split; [|split].
  - intros (m & Hm & Hkeys). rewrite getConfiguration_rowsAB_Incoming in Hm.
    injection Hm as <-.
    assert (H : "A" ∈ Js.enumerableKeys
                  [("A", Js.Property (Some "1") false false false);
                   ("B", Js.Property (Some "2") false false false)])
      by (apply Hkeys; by left).
    vm_compute in H. by apply elem_of_nil in H.
  - intros (m & Hm & Hget). vm_compute in Hm. injection Hm as <-.
    specialize (Hget {| SPList.Title := Some "A"; SPList.Value := Some "1" |}).
    assert (Hin : {| SPList.Title := Some "A"; SPList.Value := Some "1" |}
                  ∈ rowsAA) by left.
    apply Hget in Hin. vm_compute in Hin. discriminate.
  - reflexivity.
Qed.

(** C1, amended.  For rows whose Titles are pairwise distinct (and, on the
    HEAD side, none of them ["__proto__"]), [getConfiguration] resolves with
    a mapping in which looking up each row's Title yields its Value and whose
    own keys are exactly the Titles.  Enumerating the mapping yields exactly
    the Titles on the HEAD side and nothing on the incoming side, where the
    properties are defined non-enumerable. *)
Theorem getConfiguration_distinct_titles
    (side : SPList.Side) (rows : list SPList.Row)
    (Hdistinct : NoDup (SPList.key <$> rows))
    (Hproto : side = SPList.HEAD -> "__proto__" ∉ SPList.key <$> rows) :
  exists m,
    SPList.getConfiguration side (Resolved rows) = Resolved m
    /\ (forall r, r ∈ rows -> Js.get m (SPList.key r) = Some (SPList.Value r))
    /\ (forall k, k ∈ Js.ownKeys m <-> k ∈ SPList.key <$> rows)
    /\ (forall k, k ∈ Js.enumerableKeys m <->
                  side = SPList.HEAD /\ k ∈ SPList.key <$> rows).
Proof.
  eexists. split; [|split; [|split]].
  - rewrite getConfiguration_reduce.
    apply reduce_storeRow_fresh; [done | | done].
    intros k _. apply not_elem_of_nil.
  - intros r Hr. unfold Js.get. simpl.
    rewrite (getOwnProperty_stored side rows r Hdistinct Hr).
    by destruct side.
  - intros k. simpl. by rewrite ownKeys_stored.
  - intros k. simpl. rewrite enumerableKeys_stored. destruct side.
    + split; [intros H; by split | by intros [_ H]].
    + split; [intros H; inversion H | by intros [? _]].
Qed.

Lemma getConfiguration_distinct_titles_witness :
  exists m,
    SPList.getConfiguration SPList.HEAD (Resolved rowsAB) = Resolved m
    /\ (forall r, r ∈ rowsAB -> Js.get m (SPList.key r) = Some (SPList.Value r))
    /\ (forall k, k ∈ Js.ownKeys m <-> k ∈ SPList.key <$> rowsAB)
    /\ (forall k, k ∈ Js.enumerableKeys m <->
                  SPList.HEAD = SPList.HEAD /\ k ∈ SPList.key <$> rowsAB).
Proof.
  apply (getConfiguration_distinct_titles SPList.HEAD rowsAB).
  - apply (bool_decide_unpack _). vm_compute. exact I.
  - intros _. apply (bool_decide_unpack _). vm_compute. exact I.
Defined.

(** C7, as stated, fails: a row without a Title is neither refused nor
    dropped.  On both sides of the merge the call resolves, and the mapping
    has the entry ["undefined"] holding the row's Value. *)
Lemma getConfiguration_untitled_row_kept :
  (exists m,
     SPList.getConfiguration SPList.HEAD (Resolved rowsUntitled) = Resolved m
     /\ Js.get m "undefined" = Some (Some "1"))
  /\ (exists m,
     SPList.getConfiguration SPList.Incoming (Resolved rowsUntitled) = Resolved m
     /\ Js.get m "undefined" = Some (Some "1")).
Proof. split; eexists; split; reflexivity. Qed.

(** C7, amended.  A row whose Title is missing is stored under the key
    ["undefined"]: whenever [getConfiguration] resolves, the mapping has an
    own entry ["undefined"].  The HEAD side always resolves; the incoming
    side rejects, with a TypeError, only when two rows have the same key and
    different Values. *)
Theorem getConfiguration_missing_title
    (side : SPList.Side) (rows : list SPList.Row) (r : SPList.Row)
    (Hin : r ∈ rows) (Hmissing : SPList.Title r = None) :
  match SPList.getConfiguration side (Resolved rows) with
  | Resolved m => "undefined" ∈ Js.ownKeys m
  | Rejected e =>
      side = SPList.Incoming /\ e = TypeError
      /\ exists r1 r2, r1 ∈ rows /\ r2 ∈ rows
           /\ SPList.key r1 = SPList.key r2
           /\ SPList.Value r1 <> SPList.Value r2
  end.
Proof.
  assert (Hkey : SPList.key r = "undefined")
    by (unfold SPList.key; by rewrite Hmissing).
  rewrite getConfiguration_reduce. destruct side; simpl.
  - destruct (reduce_assignRow rows Js.empty) as (m & -> & _ & Hrows).
    { intros k p H. by apply elem_of_nil in H. }
    rewrite <- Hkey. apply Hrows; [done|]. by rewrite Hkey.
  - assert (Hf : frozen Js.empty)
      by (intros k p H0; by apply elem_of_nil in H0).
    assert (Hs : stores_rows [] Js.empty)
      by (intros k p H0; by apply elem_of_nil in H0).
    pose proof (reduce_defineRow rows Js.empty [] Hf Hs) as H. simpl in H.
    destruct (reduce SPList.defineRow rows Js.empty) as [m|e].
    + destruct H as [_ Hrows]. rewrite <- Hkey. by apply Hrows.
    + by destruct H as (-> & Hconflict).
Qed.

Lemma getConfiguration_missing_title_witness :
  "undefined" ∈ Js.ownKeys
    [("undefined", Js.Property (Some "1") false false false)].
Proof.
  apply (getConfiguration_missing_title SPList.Incoming rowsUntitled
           {| SPList.Title := None; SPList.Value := Some "1" |}).
  - left.
  - reflexivity.
Defined.

(** ** The query-parameter store *)

Section StoreFacts.

Import Rest.
Implicit Types (w : World) (q : Queryable) (l : loc).

Lemma entries_alloc d w : entries (alloc d w).1 (alloc d w).2 = d.
Proof. unfold entries, alloc. simpl. by rewrite lookup_insert_eq. Qed.

Lemma alloc_fresh d w : (alloc d w).1 ∉ dom (dictionaries w).
Proof. unfold alloc. simpl. apply is_fresh. Qed.

(** A fresh dictionary leaves every allocated one as it was. *)
Lemma alloc_frame d w l :
  l ∈ dom (dictionaries w) ->
  dictionaries (alloc d w).2 !! l = dictionaries w !! l
  /\ (alloc d w).1 <> l
  /\ l ∈ dom (dictionaries (alloc d w).2).
Proof.
  intros Hl. pose proof (alloc_fresh d w) as Hfresh.
  assert (Hne : (alloc d w).1 <> l) by (intros E; by rewrite E in Hfresh).
  unfold alloc in *. simpl in *. split; [|split; [done|]].
  - by rewrite lookup_insert_ne.
  - rewrite dom_insert_L. set_solver.
Qed.

Lemma new_sent baseUrl path w : sent (new baseUrl path w).2 = sent w.
Proof. by destruct baseUrl. Qed.

Lemma new_url baseUrl path w :
  toUrl (new baseUrl path w).1 =
    descend (match baseUrl with inl base => base | inr parent => toUrl parent end)
            path.
Proof. by destruct baseUrl. Qed.

(** What the child's dictionary holds right after construction: nothing
    for a base string, the parent's entries for a parent. *)
Lemma new_entries baseUrl path w :
  entries (_query (new baseUrl path w).1) (new baseUrl path w).2 =
    match baseUrl with
    | inl _ => ∅
    | inr parent => entries (_query parent) w
    end.
Proof.
  destruct baseUrl as [base|parent]; unfold new, bind, ret, read; simpl.
  - apply (entries_alloc ∅ w).
  - apply (entries_alloc _ w).
Qed.

(** Construction allocates; it writes to no dictionary that exists. *)
Lemma new_frame baseUrl path w l :
  l ∈ dom (dictionaries w) ->
  dictionaries (new baseUrl path w).2 !! l = dictionaries w !! l
  /\ _query (new baseUrl path w).1 <> l
  /\ l ∈ dom (dictionaries (new baseUrl path w).2).
Proof.
  intros Hl.
  destruct baseUrl as [base|parent]; unfold new, bind, ret, read; simpl.
  - apply (alloc_frame ∅ w l Hl).
  - apply (alloc_frame _ w l Hl).
Qed.

Lemma new_allocated baseUrl path w :
  _query (new baseUrl path w).1 ∈ dom (dictionaries (new baseUrl path w).2).
Proof.
  destruct baseUrl as [base|parent]; unfold new, bind, ret, read, alloc; simpl;
    rewrite dom_insert_L; set_solver.
Qed.

(** [query.add] writes to the dictionary of its receiver only. *)
Lemma query_add_frame q k v w l :
  l ∈ dom (dictionaries w) -> _query q <> l ->
  dictionaries (query_add q k v w).2 !! l = dictionaries w !! l
  /\ l ∈ dom (dictionaries (query_add q k v w).2).
Proof.
  intros Hl Hne. unfold query_add, add. simpl. split.
  - by rewrite lookup_insert_ne.
  - rewrite dom_insert_L. set_solver.
Qed.

Lemma send_sent m q o w :
  sent (send m q o w).2 =
    sent w ++ [ {| r_method := m; r_url := toUrl q;
                   r_query := entries (_query q) w;
                   r_headers := o_headers o; r_body := o_body o |} ].
Proof. reflexivity. Qed.

End StoreFacts.

(** ** Util.extend on objects with distinct keys *)

Section ExtendFacts.

Implicit Types (ms target source : list (string * Json.t)).

Lemma assign_fresh ms k v :
  k <> "__proto__" -> k ∉ ms.*1 -> Json.assign ms k v = ms ++ [(k, v)].
Proof.
  intros Hproto.
  induction ms as [|[k0 v0] ms IH]; csimpl.
  - intros _. by destruct (String.eqb_spec k "__proto__").
  - rewrite not_elem_of_cons. intros [Hne Hk].
    destruct (String.eqb_spec k0 k) as [E|_]; [congruence|].
    by rewrite IH.
Qed.

(** A member that would be stored under ["__proto__"] is lost. *)
Lemma assign_proto ms v :
  "__proto__" ∉ ms.*1 -> Json.assign ms "__proto__" v = ms.
Proof.
  induction ms as [|[k0 v0] ms IH]; csimpl; [done|].
  rewrite not_elem_of_cons. intros [Hne Hk].
  destruct (String.eqb_spec k0 "__proto__") as [E|_]; [congruence|].
  by rewrite IH.
Qed.

(** When the keys of [source] are pairwise distinct, none of them is
    ["__proto__"] and none of them is a key of [target], the result lists
    the members of [target], then those of [source]. *)
Lemma extend_disjoint source : forall target,
  NoDup source.*1 ->
  "__proto__" ∉ source.*1 ->
  (forall k, k ∈ source.*1 -> k ∉ target.*1) ->
  Rest.extend target source = target ++ source.
Proof.
  unfold Rest.extend.
  induction source as [|[k v] source IH];
    intros target Hnd Hproto Hdisj; csimpl.
  - by rewrite app_nil_r.
  - apply NoDup_cons in Hnd as [Hk Hnd].
    csimpl in Hproto. apply not_elem_of_cons in Hproto as [Hne Hproto].
    rewrite assign_fresh; [|done|apply Hdisj; left].
    rewrite IH, <- app_assoc; [done | done | done |].
    intros k' Hk'. rewrite fmap_app, not_elem_of_app. split.
    + apply Hdisj. by right.
    + csimpl. rewrite not_elem_of_cons. split; [|apply not_elem_of_nil].
      intros ->. done.
Qed.

End ExtendFacts.

(** ** Claims on site.ts *)

(** [getById] appends the key selector to the URL of the collection. *)
Lemma Fields_getById_url (this : Rest.Queryable) (id : string) (w : Rest.World) :
  Rest.toUrl (Fields.getById this id w).1 = Rest.toUrl this +:+ "('" +:+ id +:+ "')".
Proof. reflexivity. Qed.

(** C4.  [Field.update] and [Field.delete] each hand exactly one request to
    the transport; it is a POST to the field's URL whose headers carry
    [X-HTTP-Method] set to ["MERGE"] for update and to ["DELETE"] for
    delete. *)
Theorem Field_update_delete_tunnelled
    (this : Rest.Queryable) (properties : list (string * Json.t))
    (fieldType : option string) (w : Rest.World) :
  (exists r,
     Rest.sent (Field.update this properties fieldType w).2 = Rest.sent w ++ [r]
     /\ Rest.r_method r = Rest.POST
     /\ Rest.r_url r = Rest.toUrl this
     /\ Rest.r_headers r !! "X-HTTP-Method" = Some "MERGE")
  /\ (exists r,
     Rest.sent (Field.delete this w).2 = Rest.sent w ++ [r]
     /\ Rest.r_method r = Rest.POST
     /\ Rest.r_url r = Rest.toUrl this
     /\ Rest.r_headers r !! "X-HTTP-Method" = Some "DELETE").
Proof.
  split; eexists; (split; [reflexivity|]); repeat split; simpl;
    apply lookup_singleton_eq.
Qed.

(** C5, as stated, fails for [createFieldAsXml]: the object it serialises
    for the schema ["<Field/>"] has the single member ["parameters"] and no
    member ["__metadata"]; the metadata sits one level down, with a type name
    that is fixed rather than supplied. *)
Lemma createFieldAsXml_payload_is_wrapped :
  let payload := Fields.createFieldAsXmlPayload (inl "<Field/>") in
  (exists r,
     Rest.sent (Fields.createFieldAsXml
                  (Fields.new (inl "_api/web") None world0).1
                  (inl "<Field/>")
                  (Fields.new (inl "_api/web") None world0).2).2 = [r]
     /\ Rest.r_body r = Some (Json.stringify payload))
  /\ Json.member payload "__metadata" = None
  /\ (Json.members_of payload).*1 = ["parameters"]
  /\ Json.member payload "parameters" =
       Some (Json.Obj
               [("__metadata",
                 Json.Obj [("type",
                            Json.Str "SP.XmlSchemaFieldCreationInformation")]);
                ("SchemaXml", Json.Str "<Field/>")]).
Proof. split; [eexists; split; reflexivity | repeat split]. Qed.

(** Building the result of a creation call sends nothing. *)
Lemma added_sent (this : Rest.Queryable) (r : Outcome Json.t) (w : Rest.World) :
  Rest.sent (Rest.and_thenM r (Fields.added this) w).2 = Rest.sent w.
Proof.
  destruct r as [data|e]; [|done].
  unfold Rest.and_thenM, Fields.added.
  by destruct (Rest.readId data).
Qed.

(** C5, amended.  [Fields.add] posts the serialisation of the object whose
    ["__metadata"] member is [{ type: fieldType }], whose ["Title"] is the
    title and whose remaining members are the supplied properties, when
    these have distinct keys other than ["__metadata"], ["Title"] and
    ["__proto__"].  [Fields.createFieldAsXml] posts, to the [createfieldasxml] child, the
    serialisation of an object with the single member ["parameters"]; that
    member holds ["__metadata"] set to
    [{ type: "SP.XmlSchemaFieldCreationInformation" }] followed by the
    members of the creation information, when these have distinct keys
    other than ["__metadata"] and ["__proto__"] (a string argument gives
    the one member [SchemaXml]).  Numbers among the supplied values are integers of
    magnitude at most 2^53 - 1.  The serialisation lists the members as
    JavaScript does, array-index keys first. *)
Theorem creation_request_bodies
    (this : Rest.Queryable) (title fieldType : string)
    (properties : list (string * Json.t))
    (xml : string + list (string * Json.t)) (w : Rest.World)
    (Hprops : NoDup properties.*1)
    (Hmeta : "__metadata" ∉ properties.*1)
    (Htitle : "Title" ∉ properties.*1)
    (Hproto : "__proto__" ∉ properties.*1)
    (Hsafe : Json.safe (Json.Obj properties) = true)
    (Hinfo : NoDup (Fields.creationInfo xml).*1)
    (Hinfo_meta : "__metadata" ∉ (Fields.creationInfo xml).*1)
    (Hinfo_proto : "__proto__" ∉ (Fields.creationInfo xml).*1)
    (Hinfo_safe : Json.safe (Json.Obj (Fields.creationInfo xml)) = true) :
  (exists r,
     Rest.sent (Fields.add this title fieldType (Some properties) w).2
       = Rest.sent w ++ [r]
     /\ Rest.r_method r = Rest.POST
     /\ Rest.r_url r = Rest.toUrl this
     /\ Rest.r_body r =
          Some (Json.stringify
                  (Json.Obj (("__metadata", Json.Obj [("type", Json.Str fieldType)])
                             :: ("Title", Json.Str title) :: properties))))
  /\ (exists r,
     Rest.sent (Fields.createFieldAsXml this xml w).2 = Rest.sent w ++ [r]
     /\ Rest.r_method r = Rest.POST
     /\ Rest.r_url r = Rest.withSegment (Rest.toUrl this) "createfieldasxml"
     /\ Rest.r_body r =
          Some (Json.stringify
                  (Json.Obj
                     [("parameters",
                       Json.Obj
                         (("__metadata",
                           Json.Obj [("type",
                                      Json.Str "SP.XmlSchemaFieldCreationInformation")])
                          :: Fields.creationInfo xml))]))).
Proof.
  split.
  - exists {| Rest.r_method := Rest.POST; Rest.r_url := Rest.toUrl this;
              Rest.r_query := Rest.entries (Rest._query this) w;
              Rest.r_headers := ∅;
              Rest.r_body :=
                Some (Json.stringify
                        (Fields.addPayload title fieldType properties)) |}.
    split; [|split; [|split]]; try reflexivity.
    + unfold Fields.add, bind, Rest.post.
      destruct (Rest.send _ _ _ w) as [r w'] eqn:E.
      rewrite added_sent.
      change w' with (r, w').2. rewrite <- E. apply send_sent.
    + simpl. unfold Fields.addPayload.
      rewrite extend_disjoint; [done | done | done |].
      intros k Hk. csimpl. rewrite !not_elem_of_cons.
      repeat split; [intros -> .. | apply not_elem_of_nil]; done.
  - exists {| Rest.r_method := Rest.POST;
              Rest.r_url :=
                Rest.withSegment (Rest.toUrl this) "createfieldasxml";
              Rest.r_query := Rest.entries (Rest._query this) w;
              Rest.r_headers := ∅;
              Rest.r_body :=
                Some (Json.stringify (Fields.createFieldAsXmlPayload xml)) |}.
    split; [|split; [|split]]; try reflexivity.
    + unfold Fields.createFieldAsXml, bind, Rest.post.
      destruct (Fields.new _ _ w) as [q w1] eqn:Eq.
      destruct (Rest.send _ _ _ w1) as [r w'] eqn:E.
      rewrite added_sent.
      change w' with (r, w').2. rewrite <- E. rewrite send_sent.
      assert (Hsent : Rest.sent w1 = Rest.sent w).
      { change w1 with (q, w1).2. rewrite <- Eq. apply new_sent. }
      assert (Hurl : Rest.toUrl q
                     = Rest.withSegment (Rest.toUrl this) "createfieldasxml").
      { change q with (q, w1).1. rewrite <- Eq. apply new_url. }
      assert (Hentries : Rest.entries (Rest._query q) w1
                         = Rest.entries (Rest._query this) w).
      { change q with (q, w1).1. change w1 with (q, w1).2 at 2.
        rewrite <- Eq. apply (new_entries (inr this)). }
      rewrite Hsent, Hurl, Hentries. reflexivity.
    + simpl. unfold Fields.createFieldAsXmlPayload.
      rewrite extend_disjoint; [done | done | done |].
      intros k Hk. csimpl. rewrite !not_elem_of_cons.
      split; [intros -> | apply not_elem_of_nil]; done.
Qed.

Lemma creation_request_bodies_witness :
  let fields := (Fields.new (inl "_api/web") None world0).1 in
  let w := (Fields.new (inl "_api/web") None world0).2 in
  (exists r,
     Rest.sent (Fields.add fields "Notes" "SP.FieldText"
                  (Some [("FieldTypeKind", Json.Num 2)]) w).2
       = Rest.sent w ++ [r]
     /\ Rest.r_method r = Rest.POST
     /\ Rest.r_url r = Rest.toUrl fields
     /\ Rest.r_body r =
          Some (Json.stringify
                  (Json.Obj (("__metadata",
                              Json.Obj [("type", Json.Str "SP.FieldText")])
                             :: ("Title", Json.Str "Notes")
                             :: [("FieldTypeKind", Json.Num 2)]))))
  /\ (exists r,
     Rest.sent (Fields.createFieldAsXml fields (inl "<Field/>") w).2
       = Rest.sent w ++ [r]
     /\ Rest.r_method r = Rest.POST
     /\ Rest.r_url r = Rest.withSegment (Rest.toUrl fields) "createfieldasxml"
     /\ Rest.r_body r =
          Some (Json.stringify
                  (Json.Obj
                     [("parameters",
                       Json.Obj
                         (("__metadata",
                           Json.Obj [("type",
                                      Json.Str "SP.XmlSchemaFieldCreationInformation")])
                          :: Fields.creationInfo (inl "<Field/>")))]))).
Proof.
  intros fields w.
  apply (creation_request_bodies fields "Notes" "SP.FieldText"
           [("FieldTypeKind", Json.Num 2)] (inl "<Field/>") w);
    first [ reflexivity | apply (bool_decide_unpack _); vm_compute; exact I ].
Defined.

(** The bodies of the two creation calls, written out. *)
Example add_body :
  singleQuoted
    (Json.stringify
       (Fields.addPayload "Notes" "SP.FieldText" [("FieldTypeKind", Json.Num 2)]))
  = "{'__metadata':{'type':'SP.FieldText'},'Title':'Notes','FieldTypeKind':2}".
Proof. vm_compute. reflexivity. Qed.

(** A property whose key is an array index is listed first, as JavaScript
    lists it. *)
Example add_body_index_key :
  singleQuoted
    (Json.stringify
       (Fields.addPayload "Notes" "SP.FieldText"
          [("Group", Json.Str "x"); ("1", Json.Str "a")]))
  = "{'1':'a','__metadata':{'type':'SP.FieldText'},'Title':'Notes','Group':'x'}".
Proof. vm_compute. reflexivity. Qed.

Example createFieldAsXml_body :
  singleQuoted (Json.stringify (Fields.createFieldAsXmlPayload (inl "<Field/>")))
  = "{'parameters':{'__metadata':{'type':'SP.XmlSchemaFieldCreationInformation'},'SchemaXml':'<Field/>'}}".
Proof. vm_compute. reflexivity. Qed.

(** C6 at [new Fields("_api/web")]: [getById] gives the URL of the
    collection followed by the key selector, [getByTitle("Title")] gives the
    URL of the collection itself; the selector [getByTitle('Title')] is not
    part of it. *)
Lemma Fields_getByTitle_loses_selector :
  let fields := (Fields.new (inl "_api/web") None world0).1 in
  let w := (Fields.new (inl "_api/web") None world0).2 in
  Rest.toUrl fields = "_api/web/fields"
  /\ Rest.toUrl (Fields.getById fields "7b7c777e" w).1
     = "_api/web/fields('7b7c777e')"
  /\ Rest.toUrl (Fields.getByTitle fields "Title" w).1 = "_api/web/fields".
Proof. repeat split. Qed.

(** C9.  [new Field(p, s)] has the URL of [p], whether [p] is a Queryable or
    a base string, and each of [setShowInDisplayForm], [setShowInEditForm]
    and [setShowInNewForm] hands the transport one POST whose URL is the
    field's own and whose query parameters are the field's. *)
Theorem Field_constructor_ignores_path
    (this : Rest.Queryable) (base : string) (path : option string)
    (show : bool) (w : Rest.World) :
  let r := {| Rest.r_method := Rest.POST;
              Rest.r_url := Rest.toUrl this;
              Rest.r_query := Rest.entries (Rest._query this) w;
              Rest.r_headers := ∅;
              Rest.r_body := None |} in
  Rest.toUrl (Field.new (inr this) path w).1 = Rest.toUrl this
  /\ Rest.toUrl (Field.new (inl base) path w).1 = base
  /\ Rest.sent (Field.setShowInDisplayForm this show w).2 = Rest.sent w ++ [r]
  /\ Rest.sent (Field.setShowInEditForm this show w).2 = Rest.sent w ++ [r]
  /\ Rest.sent (Field.setShowInNewForm this show w).2 = Rest.sent w ++ [r].
Proof.
  intros r.
  assert (Hpost : forall s,
    Rest.sent ((let* q := Field.new (inr this) s in
                Rest.post q Rest.noOptions) w).2 = Rest.sent w ++ [r]).
  { intros s. unfold bind, Field.new, Rest.post.
    destruct (Rest.new (inr this) None w) as [q w1] eqn:Eq.
    rewrite send_sent.
    assert (Hsent : Rest.sent w1 = Rest.sent w).
    { change w1 with (q, w1).2. rewrite <- Eq. apply new_sent. }
    assert (Hurl : Rest.toUrl q = Rest.toUrl this).
    { change q with (q, w1).1. rewrite <- Eq. apply new_url. }
    assert (Hentries : Rest.entries (Rest._query q) w1
                       = Rest.entries (Rest._query this) w).
    { change q with (q, w1).1. change w1 with (q, w1).2 at 2.
      rewrite <- Eq. apply (new_entries (inr this)). }
    rewrite Hsent, Hurl, Hentries. reflexivity. }
  split; [reflexivity|]. split; [reflexivity|].
  repeat split; apply Hpost.
Qed.

(** The field reached through [getByTitle], asked to hide itself from the
    display form, posts to the URL of the collection. *)
Example setShowInDisplayForm_posts_to_collection :
  let fields := (Fields.new (inl "_api/web") None world0).1 in
  let w1 := (Fields.new (inl "_api/web") None world0).2 in
  let field := (Fields.getByTitle fields "Title" w1).1 in
  let w2 := (Fields.getByTitle fields "Title" w1).2 in
  Rest.r_url <$> Rest.sent (Field.setShowInDisplayForm field false w2).2
    = ["_api/web/fields"].
Proof. reflexivity. Qed.

(** C10.  [getContextInfo], [getDocumentLibraries] and
    [getWebUrlFromPageUrl] do not look at their receiver: on any two sites
    they behave alike, and each hands the transport one request to a fixed
    endpoint, with the argument between single quotes as the [@v] query
    parameter. *)
Theorem Site_static_endpoints
    (site1 site2 : Rest.Queryable) (url : string) (w : Rest.World) :
  Site.getContextInfo site1 w = Site.getContextInfo site2 w
  /\ Site.getDocumentLibraries site1 url w = Site.getDocumentLibraries site2 url w
  /\ Site.getWebUrlFromPageUrl site1 url w = Site.getWebUrlFromPageUrl site2 url w
  /\ Rest.sent (Site.getContextInfo site1 w).2 =
       Rest.sent w ++ [ {| Rest.r_method := Rest.POST;
                           Rest.r_url := "_api/contextinfo";
                           Rest.r_query := ∅;
                           Rest.r_headers := ∅;
                           Rest.r_body := None |} ]
  /\ Rest.sent (Site.getDocumentLibraries site1 url w).2 =
       Rest.sent w ++ [ {| Rest.r_method := Rest.GET;
                           Rest.r_url := "_api/sp.web.getdocumentlibraries(@v)";
                           Rest.r_query := {[ "@v" := "'" +:+ url +:+ "'" ]};
                           Rest.r_headers := ∅;
                           Rest.r_body := None |} ]
  /\ Rest.sent (Site.getWebUrlFromPageUrl site1 url w).2 =
       Rest.sent w ++ [ {| Rest.r_method := Rest.GET;
                           Rest.r_url := "_api/sp.web.getweburlfrompageurl(@v)";
                           Rest.r_query := {[ "@v" := "'" +:+ url +:+ "'" ]};
                           Rest.r_headers := ∅;
                           Rest.r_body := None |} ].
Proof.
  assert (Hquery : forall base v,
    let q := (Rest.new (inl base) None w).1 in
    let w1 := (Rest.new (inl base) None w).2 in
    Rest.entries (Rest._query q) (Rest.query_add q "@v" v w1).2 = {[ "@v" := v ]}).
  { intros base v q w1. unfold Rest.query_add, Rest.add, Rest.entries. simpl.
    rewrite !lookup_insert_eq. simpl. apply insert_empty. }
  repeat split.
  - unfold Site.getContextInfo, Site.new, bind, Rest.post. simpl.
    do 3 f_equal. unfold Rest.entries. simpl. by rewrite lookup_insert_eq.
  - unfold Site.getDocumentLibraries, bind, Rest.get. simpl.
    do 3 f_equal. apply (Hquery "_api/sp.web.getdocumentlibraries(@v)").
  - unfold Site.getWebUrlFromPageUrl, bind, Rest.get. simpl.
    do 3 f_equal. apply (Hquery "_api/sp.web.getweburlfrompageurl(@v)").
Qed.

(** ** Derivation never reaches back to the parent *)

(** Whatever is derived from [q], and whatever parameters are then added
    along the chain, a dictionary that exists and is not the one of [q]
    keeps its entries. *)
Lemma run_frame (steps : list Step) : forall (q : Rest.Queryable) (w : Rest.World) (l : Rest.loc),
  l ∈ dom (Rest.dictionaries w) -> Rest._query q <> l ->
  Rest.dictionaries (run steps q w).2 !! l = Rest.dictionaries w !! l.
Proof.
  induction steps as [|[path|k v] steps IH]; intros q w l Hl Hne; cbn [run].
  - done.
  - unfold bind.
    destruct (new_frame (inr q) path w l Hl) as (Hsame & Hne' & Hl').
    rewrite (surjective_pairing (Rest.new (inr q) path w)).
    by rewrite IH.
  - unfold bind.
    destruct (query_add_frame q k v w l Hl Hne) as (Hsame & Hl').
    rewrite (surjective_pairing (Rest.query_add q k v w)).
    by rewrite IH.
Qed.

(** C8.  Take a parent whose dictionary exists, derive a child from it with
    [Fields.getByTitle], and then run any chain of further derivations and
    query-parameter updates from that child.  The parent's query parameters
    are what they were, so a verb on the parent would hand the transport the
    same URL and the same parameters as before.  (The URL of a Queryable is
    fixed at construction.) *)
Theorem derive_leaves_parent_unchanged
    (parent : Rest.Queryable) (title : string) (steps : list Step)
    (w : Rest.World)
    (Hparent : Rest._query parent ∈ dom (Rest.dictionaries w)) :
  let child := (Fields.getByTitle parent title w).1 in
  let w1 := (Fields.getByTitle parent title w).2 in
  let w2 := (run steps child w1).2 in
  Rest._query child <> Rest._query parent
  /\ Rest.entries (Rest._query parent) w2 = Rest.entries (Rest._query parent) w
  /\ forall m o,
       last (Rest.sent (Rest.send m parent o w2).2)
       = last (Rest.sent (Rest.send m parent o w).2).
Proof.
  intros child w1 w2.
  destruct (new_frame (inr parent) None w _ Hparent) as (Hsame & Hne & Hl).
  assert (Hentries : Rest.entries (Rest._query parent) w2
                     = Rest.entries (Rest._query parent) w).
  { unfold Rest.entries, w2. rewrite run_frame; [|exact Hl|exact Hne].
    unfold w1, Fields.getByTitle, Field.new. by rewrite Hsame. }
  split; [exact Hne|]. split; [exact Hentries|].
  intros m o. rewrite !send_sent, !last_snoc. by rewrite Hentries.
Qed.

Lemma derive_leaves_parent_unchanged_witness :
  let parent := (Fields.new (inl "_api/web") None world0).1 in
  let w := (Fields.new (inl "_api/web") None world0).2 in
  let steps := [AddQuery "$select" "Title"; Derive (Some "views");
                AddQuery "$top" "5"] in
  let child := (Fields.getByTitle parent "Title" w).1 in
  let w1 := (Fields.getByTitle parent "Title" w).2 in
  let w2 := (run steps child w1).2 in
  Rest._query child <> Rest._query parent
  /\ Rest.entries (Rest._query parent) w2 = Rest.entries (Rest._query parent) w
  /\ forall m o,
       last (Rest.sent (Rest.send m parent o w2).2)
       = last (Rest.sent (Rest.send m parent o w).2).
Proof.
  intros parent w steps.
  apply (derive_leaves_parent_unchanged parent "Title" steps w).
  apply (bool_decide_unpack _). vm_compute. exact I.
Defined.

(** In that run the leaf does carry the added parameters. *)
Example derived_leaf_has_parameters :
  let parent := (Fields.new (inl "_api/web") None world0).1 in
  let w := (Fields.new (inl "_api/web") None world0).2 in
  let steps := [AddQuery "$select" "Title"; Derive (Some "views");
                AddQuery "$top" "5"] in
  let child := (Fields.getByTitle parent "Title" w).1 in
  let w1 := (Fields.getByTitle parent "Title" w).2 in
  let leaf := (run steps child w1).1 in
  let w2 := (run steps child w1).2 in
  Rest.toUrl leaf = "_api/web/fields/views"
  /\ Rest.entries (Rest._query leaf) w2 !! "$select" = Some "Title"
  /\ Rest.entries (Rest._query leaf) w2 !! "$top" = Some "5"
  /\ Rest.entries (Rest._query child) w2 !! "$top" = None
  /\ Rest.entries (Rest._query parent) w2 = ∅.
Proof. vm_compute. repeat split. Qed.

(** ** Claims on asCaching and the caching provider *)

(** The key the HEAD side computes does not mention the web. *)
Lemma asCaching_key_HEAD (p : SPList.Provider) :
  Caching.cacheKey (SPList.asCaching SPList.HEAD p)
  = "splist_undefined+" +:+ SPList.listTitle p.
Proof. reflexivity. Qed.

(** Providers over webs with the same URL and with the same list title get
    the same cache key from [asCaching], on either side of the merge; on the
    incoming side the key is ["splist_"], the URL of the web, ["+"] and the
    list title. *)
Theorem asCaching_key_deterministic
    (side : SPList.Side) (p1 p2 : SPList.Provider)
    (Hweb : Rest.toUrl (SPList.web p1) = Rest.toUrl (SPList.web p2))
    (Htitle : SPList.listTitle p1 = SPList.listTitle p2) :
  Caching.cacheKey (SPList.asCaching side p1)
  = Caching.cacheKey (SPList.asCaching side p2)
  /\ Caching.cacheKey (SPList.asCaching SPList.Incoming p1)
     = "splist_" +:+ Rest.toUrl (SPList.web p1) +:+ "+" +:+ SPList.listTitle p1.
Proof.
  split; [|reflexivity].
  destruct side; simpl; by rewrite ?Hweb, Htitle.
Qed.

Lemma asCaching_key_deterministic_witness :
  let web1 := (Rest.new (inl "https://contoso/sites/dev") (Some "_api/web") world0).1 in
  let w1 := (Rest.new (inl "https://contoso/sites/dev") (Some "_api/web") world0).2 in
  let web2 := (Rest.new (inl "https://contoso/sites/dev") (Some "_api/web") w1).1 in
  Caching.cacheKey (SPList.asCaching SPList.Incoming (SPList.new web1 None))
  = Caching.cacheKey (SPList.asCaching SPList.Incoming (SPList.new web2 None))
  /\ Caching.cacheKey (SPList.asCaching SPList.Incoming (SPList.new web1 None))
     = "splist_" +:+ Rest.toUrl (SPList.web (SPList.new web1 None)) +:+ "+"
       +:+ SPList.listTitle (SPList.new web1 None).
Proof.
  intros web1 w1 web2.
  apply (asCaching_key_deterministic SPList.Incoming
           (SPList.new web1 None) (SPList.new web2 None)); reflexivity.
Defined.

(** C3 on the HEAD side, at two providers over webs with different URLs and
    the default list title.  The key reads [this.webUrl], which the class
    does not have, so both providers get ["splist_undefined+config"]: the
    key is not derived from the web's URL, and providers that are not
    equivalent share one cache slot.  The incoming side, which reads
    [this.web.toUrl()], gives each its own key. *)
Lemma asCaching_HEAD_key_ignores_web :
  let webA := {| Rest._url := "https://contoso/sites/a/_api/web";
                 Rest._query := 1%positive |} in
  let webB := {| Rest._url := "https://contoso/sites/b/_api/web";
                 Rest._query := 2%positive |} in
  Caching.cacheKey (SPList.asCaching SPList.HEAD (SPList.new webA None))
  = "splist_undefined+config"
  /\ Caching.cacheKey (SPList.asCaching SPList.HEAD (SPList.new webB None))
     = "splist_undefined+config"
  /\ Caching.cacheKey (SPList.asCaching SPList.Incoming (SPList.new webA None))
     = "splist_https://contoso/sites/a/_api/web+config"
  /\ Caching.cacheKey (SPList.asCaching SPList.Incoming (SPList.new webB None))
     = "splist_https://contoso/sites/b/_api/web+config".
Proof. repeat split. Qed.

Example asCaching_key_example :
  let web := (Rest.new (inl "https://contoso/sites/dev") (Some "_api/web") world0).1 in
  Caching.cacheKey (SPList.asCaching SPList.Incoming (SPList.new web None))
  = "splist_https://contoso/sites/dev/_api/web+config".
Proof. reflexivity. Qed.

Section CachingFacts.

Context {I : Type} (load : I -> nat -> Outcome Js.object) (defaultTtl : Z).
Implicit Types (p : Caching.Provider I) (rt : Caching.Runtime).

(** A call that finds no unexpired record asks the inner provider. *)
Lemma getConfiguration_miss p now rt :
  Caching.unexpired p now rt = None ->
  Caching.getConfiguration load defaultTtl p now rt =
    match load (Caching.wrappedProvider p) (Caching.loads rt) with
    | Resolved v =>
        (Resolved v,
         {| Caching.cache :=
              <[Caching.cacheKey p :=
                  {| Caching.c_value := v;
                     Caching.c_expiration :=
                       (now + default defaultTtl (Caching.ttlSeconds p))%Z |}]>
                (Caching.cache rt);
            Caching.loads := S (Caching.loads rt) |})
    | Rejected e =>
        (Rejected e, {| Caching.cache := Caching.cache rt;
                        Caching.loads := S (Caching.loads rt) |})
    end.
Proof. intros H. unfold Caching.getConfiguration. by rewrite H. Qed.

(** A record that has expired stays expired. *)
Lemma unexpired_later p now now' rt :
  (now <= now')%Z ->
  Caching.unexpired p now rt = None -> Caching.unexpired p now' rt = None.
Proof.
  unfold Caching.unexpired. intros Hle.
  destruct (Caching.cache rt !! Caching.cacheKey p) as [r|]; [|done].
  destruct (Z.ltb_spec now (Caching.c_expiration r)); [done|].
  intros _. destruct (Z.ltb_spec now' (Caching.c_expiration r)); [lia|done].
Qed.

Lemma unexpired_cache p now rt rt' :
  Caching.cache rt' = Caching.cache rt ->
  Caching.unexpired p now rt' = Caching.unexpired p now rt.
Proof. unfold Caching.unexpired. by intros ->. Qed.

End CachingFacts.

(** C2.  When a call finds no unexpired record under the key and the inner
    load fails with [e], the call rejects with [e] itself and the cache is
    what it was.  The next call, at that time or later, again finds no
    unexpired record (and no record at all if there was none), asks the
    inner provider for a fresh load and settles the way that load does. *)
Theorem failed_load_is_not_cached
    {I : Type} (load : I -> nat -> Outcome Js.object) (defaultTtl : Z)
    (p : Caching.Provider I) (now now' : Z) (rt : Caching.Runtime) (e : Reason)
    (Hmiss : Caching.unexpired p now rt = None)
    (Hfail : load (Caching.wrappedProvider p) (Caching.loads rt) = Rejected e)
    (Hlater : (now <= now')%Z) :
  let first := Caching.getConfiguration load defaultTtl p now rt in
  let second := Caching.getConfiguration load defaultTtl p now' first.2 in
  first.1 = Rejected e
  /\ Caching.cache first.2 = Caching.cache rt
  /\ Caching.loads first.2 = S (Caching.loads rt)
  /\ Caching.unexpired p now' first.2 = None
  /\ second.1 = load (Caching.wrappedProvider p) (S (Caching.loads rt))
  /\ Caching.loads second.2 = S (S (Caching.loads rt)).
Proof.
  intros first second.
  assert (Hfirst : first = (Rejected e,
                            {| Caching.cache := Caching.cache rt;
                               Caching.loads := S (Caching.loads rt) |})).
  { unfold first. rewrite getConfiguration_miss by done. by rewrite Hfail. }
  assert (Hmiss' : Caching.unexpired p now' first.2 = None).
  { rewrite Hfirst. simpl.
    rewrite (unexpired_cache p now' rt) by done.
    by apply (unexpired_later p now now'). }
  unfold second. rewrite getConfiguration_miss by done.
  rewrite Hfirst in *. simpl in *.
  repeat split; try done;
    by destruct (load (Caching.wrappedProvider p) (S (Caching.loads rt))).
Qed.

Lemma failed_load_is_not_cached_witness :
  let first := Caching.getConfiguration flakyLoad 300 flakyProvider 0 runtime0 in
  let second := Caching.getConfiguration flakyLoad 300 flakyProvider 10 first.2 in
  first.1 = Rejected (RequestError 500 "Internal Server Error")
  /\ Caching.cache first.2 = Caching.cache runtime0
  /\ Caching.loads first.2 = S (Caching.loads runtime0)
  /\ Caching.unexpired flakyProvider 10 first.2 = None
  /\ second.1 = flakyLoad (Caching.wrappedProvider flakyProvider)
                  (S (Caching.loads runtime0))
  /\ Caching.loads second.2 = S (S (Caching.loads runtime0)).
Proof.
  apply (failed_load_is_not_cached flakyLoad 300 flakyProvider 0 10 runtime0
           (RequestError 500 "Internal Server Error")).
  - reflexivity.
  - reflexivity.
  - lia.
Defined.

(** The same run, continued: the second call stores what it loaded, and a
    third call within the time to live is served from the cache without a
    load. *)
Example flaky_run :
  let first := Caching.getConfiguration flakyLoad 300 flakyProvider 0 runtime0 in
  let second := Caching.getConfiguration flakyLoad 300 flakyProvider 10 first.2 in
  let third := Caching.getConfiguration flakyLoad 300 flakyProvider 69 second.2 in
  let fourth := Caching.getConfiguration flakyLoad 300 flakyProvider 70 third.2 in
  Caching.cache first.2 !! Caching.cacheKey flakyProvider = None
  /\ Caching.c_expiration <$>
       (Caching.cache second.2 !! Caching.cacheKey flakyProvider) = Some 70%Z
  /\ third.1 = second.1
  /\ Caching.loads third.2 = 2
  /\ Caching.loads fourth.2 = 3.
Proof. vm_compute. repeat split. Qed.

(* ===================================================================== *)
(** * Further properties of the code *)
(* ===================================================================== *)

(** ** getConfiguration, HEAD side, on arbitrary rows *)

Section AssignedRows.

Import SPList.
Implicit Types (rows : list Row) (o m : Js.object) (r : Row) (k : string).

Lemma getOwnProperty_snoc o k' p' k :
  Js.getOwnProperty (o ++ [(k', p')]) k =
    match Js.getOwnProperty o k with
    | Some p => Some p
    | None => if String.eqb k' k then Some p' else None
    end.
Proof.
  induction o as [|[k0 p0] o IH]; simpl; [done|].
  destruct (String.eqb k0 k); [done | apply IH].
Qed.

Lemma getOwnProperty_replaceOwn o k p k' :
  Js.getOwnProperty (Js.replaceOwn o k p) k' =
    if String.eqb k k' then (fun _ => p) <$> Js.getOwnProperty o k'
    else Js.getOwnProperty o k'.
Proof.
  induction o as [|[k0 p0] o IH]; simpl.
  - by destruct (String.eqb k k').
  - destruct (String.eqb_spec k0 k) as [->|Hne]; simpl.
    + by destruct (String.eqb k k').
    + destruct (String.eqb_spec k0 k') as [->|Hne'].
      * destruct (String.eqb_spec k k') as [->|_]; done.
      * apply IH.
Qed.

Lemma get_Some_key o k v : Js.get o k = Some v -> k ∈ Js.ownKeys o.
Proof.
  unfold Js.get. destruct (Js.getOwnProperty o k) eqn:E; [|done].
  intros _. by eapply getOwnProperty_Some_key.
Qed.

Lemma get_None o k : Js.get o k = None <-> k ∉ Js.ownKeys o.
Proof.
  rewrite <- getOwnProperty_None. unfold Js.get.
  by destruct (Js.getOwnProperty o k).
Qed.

Lemma assigned_empty : assigned Js.empty.
Proof.
  split; [|split].
  - intros k p H. inversion H.
  - constructor.
  - apply not_elem_of_nil.
Qed.

Lemma assignRow_assigned o r :
  assigned o ->
  exists o', assignRow o r = Resolved o' /\ assigned o'
    /\ forall k,
         Js.get o' k =
           if decide (key r = k /\ k <> "__proto__") then Some (Value r)
           else Js.get o k.
Proof.
  intros (Hflags & Hnd & Hproto). unfold assignRow, Js.set.
  destruct (Js.getOwnProperty o (key r)) as [p|] eqn:E.
  - pose proof (getOwnProperty_elem _ _ _ E) as Hin.
    pose proof (getOwnProperty_Some_key _ _ _ E) as Hkey.
    rewrite (Hflags _ _ Hin). simpl. eexists. split; [done|]. split.
    + split; [|split].
      * intros k1 p1 H. apply elem_of_replaceOwn in H as [H| ->]; [eauto|done].
      * by rewrite ownKeys_replaceOwn.
      * by rewrite ownKeys_replaceOwn.
    + intros k. unfold Js.get. rewrite getOwnProperty_replaceOwn.
      destruct (String.eqb_spec (key r) k) as [<-|Hne].
      * rewrite E. simpl. rewrite decide_True; [done|].
        split; [done|]. intros Heq. by rewrite Heq in Hkey.
      * rewrite decide_False; [done|]. by intros [? _].
  - destruct (String.eqb_spec (key r) "__proto__") as [Ep|Ep].
    + exists o. split; [done|]. split; [done|].
      intros k. rewrite decide_False; [done|]. intros [<- ?]. done.
    + apply getOwnProperty_None in E.
      eexists. split; [done|]. split.
      * split; [|split].
        -- intros k1 p1 H. apply elem_of_app in H as [H|H]; [eauto|].
           apply list_elem_of_singleton in H. by inversion H.
        -- rewrite ownKeys_app. apply NoDup_app. split; [done|].
           split; [|apply NoDup_singleton].
           intros x Hx Hx'. apply list_elem_of_singleton in Hx'. by subst.
        -- rewrite ownKeys_app, not_elem_of_app. split; [done|].
           intros H. apply list_elem_of_singleton in H. done.
      * intros k. unfold Js.get. rewrite getOwnProperty_snoc.
        destruct (String.eqb_spec (key r) k) as [<-|Hne].
        -- apply getOwnProperty_None in E. rewrite E. simpl.
           by rewrite decide_True.
        -- rewrite decide_False by (by intros [? _]).
           by destruct (Js.getOwnProperty o k).
Qed.

Lemma reduce_assignRow_assigned rows : forall o,
  assigned o ->
  exists m, reduce assignRow rows o = Resolved m /\ assigned m
    /\ forall k,
         Js.get m k =
           if decide (k = "__proto__") then None
           else match lastValue rows k with
                | Some v => Some v
                | None => Js.get o k
                end.
Proof.
  induction rows as [|r rows IH]; intros o Ho; simpl.
  - exists o. split; [done|]. split; [done|].
    intros k. case_decide as Hk; [|done]. subst.
    apply get_None. apply Ho.
  - destruct (assignRow_assigned o r Ho) as (o' & -> & Ho' & Hget).
    destruct (IH o' Ho') as (m & -> & Hm & Hgetm).
    exists m. split; [done|]. split; [done|].
    intros k. rewrite Hgetm. case_decide as Hk; [done|].
    destruct (lastValue rows k); [done|]. rewrite Hget.
    destruct (String.eqb_spec (key r) k) as [E|E].
    + by rewrite decide_True.
    + rewrite decide_False; [done|]. by intros [? _].
Qed.

Lemma lastValue_Some rows k v :
  lastValue rows k = Some v ->
  exists r, r ∈ rows /\ key r = k /\ Value r = v.
Proof.
  induction rows as [|r rows IH]; simpl; [done|].
  destruct (lastValue rows k) as [v'|].
  - intros [= <-]. destruct (IH eq_refl) as (r' & H1 & H2 & H3).
    exists r'. split; [by right | done].
  - destruct (String.eqb_spec (key r) k) as [E|E]; [|done].
    intros [= <-]. exists r. split; [left | done].
Qed.

Lemma lastValue_None rows k : lastValue rows k = None <-> k ∉ key <$> rows.
Proof.
  induction rows as [|r rows IH]; csimpl.
  - split; [intros _; apply not_elem_of_nil | done].
  - rewrite not_elem_of_cons. destruct (lastValue rows k) as [v|].
    + split; [done|]. intros [_ H]. by apply IH in H.
    + destruct (String.eqb_spec (key r) k) as [E|E].
      * split; [done|]. intros [H _]. by destruct H.
      * split; [|done]. intros _. split; [congruence | by apply IH].
Qed.

Lemma enumerableKeys_assigned o : assigned o -> Js.enumerableKeys o = Js.ownKeys o.
Proof.
  intros (Hflags & _ & _). unfold Js.enumerableKeys, Js.ownKeys.
  induction o as [|[k p] o IH]; [done|].
  assert (Hp : Js.p_enumerable p = true) by (rewrite (Hflags k p) by left; done).
  rewrite (filter_cons_True _ (k, p) o Hp).
  csimpl. f_equal. apply IH. intros k1 p1 H. apply (Hflags k1). by right.
Qed.

End AssignedRows.

(** ** getConfiguration, incoming side, on arbitrary rows *)

Section DefinedRows.

Import SPList.
Implicit Types (rows : list Row) (o m : Js.object) (r : Row) (k : string).

Lemma sameValue_true (a b : Js.value) : Js.sameValue a b = true -> a = b.
Proof.
  destruct a as [x|], b as [y|]; simpl; try done.
  intros H. apply String.eqb_eq in H. by subst.
Qed.

Lemma frozen_empty : frozen Js.empty.
Proof. intros k p H. inversion H. Qed.

(** A definition that goes through leaves what is there and puts the row's
    Value, read-only, under the row's key. *)
Lemma defineRow_resolved o r o' :
  frozen o -> NoDup (Js.ownKeys o) -> defineRow o r = Resolved o' ->
  frozen o' /\ NoDup (Js.ownKeys o')
  /\ (forall k p, Js.getOwnProperty o k = Some p -> Js.getOwnProperty o' k = Some p)
  /\ Js.getOwnProperty o' (key r) = Some (Js.Property (Value r) false false false)
  /\ (forall k, k ∈ Js.ownKeys o' <-> k ∈ Js.ownKeys o \/ k = key r).
Proof.
  intros Hf Hnd. unfold defineRow, Js.defineProperty.
  destruct (Js.getOwnProperty o (key r)) as [cur|] eqn:E.
  - pose proof (getOwnProperty_elem _ _ _ E) as Hin.
    destruct (Hf _ _ Hin) as (Hw & He & Hc). rewrite Hc, He, Hw. simpl.
    destruct (Js.sameValue (Value r) (Js.p_value cur)) eqn:Esame; [|done].
    intros [= <-]. apply sameValue_true in Esame.
    split; [done|]. split; [done|]. split; [done|]. split.
    + rewrite E. destruct cur. simpl in *. by subst.
    + intros k. split; [by left|]. intros [H| ->]; [done|].
      by eapply getOwnProperty_Some_key.
  - intros [= <-]. apply getOwnProperty_None in E.
    split; [|split; [|split; [|split]]].
    + intros k p H. apply elem_of_app in H as [H|H]; [eauto|].
      apply list_elem_of_singleton in H. by inversion H.
    + rewrite ownKeys_app. apply NoDup_app. split; [done|].
      split; [|apply NoDup_singleton].
      intros x Hx Hx'. apply list_elem_of_singleton in Hx'. by subst.
    + intros k p H. rewrite getOwnProperty_snoc. by rewrite H.
    + rewrite getOwnProperty_snoc. apply getOwnProperty_None in E.
      by rewrite E, String.eqb_refl.
    + intros k. rewrite ownKeys_app, elem_of_app, list_elem_of_singleton. done.
Qed.

Lemma reduce_defineRow_resolved rows : forall o m,
  frozen o -> NoDup (Js.ownKeys o) -> reduce defineRow rows o = Resolved m ->
  frozen m /\ NoDup (Js.ownKeys m)
  /\ (forall k p, Js.getOwnProperty o k = Some p -> Js.getOwnProperty m k = Some p)
  /\ (forall r, r ∈ rows ->
        Js.getOwnProperty m (key r) = Some (Js.Property (Value r) false false false))
  /\ (forall k, k ∈ Js.ownKeys m <-> k ∈ Js.ownKeys o \/ k ∈ key <$> rows).
Proof.
  induction rows as [|r rows IH]; intros o m Hf Hnd; simpl.
  - intros [= <-]. split; [done|]. split; [done|]. split; [done|]. split.
    + intros r Hr. inversion Hr.
    + intros k. split; [by left|]. intros [Hk|Hk]; [done | inversion Hk].
  - destruct (defineRow o r) as [o'|e] eqn:E; [|done]. intros Hm.
    destruct (defineRow_resolved o r o' Hf Hnd E)
      as (Hf' & Hnd' & Hkeep & Hnew & Hkeys).
    destruct (IH o' m Hf' Hnd' Hm) as (Hfm & Hndm & Hkeep' & Hrows & Hkeys').
    split; [done|]. split; [done|]. split; [auto|]. split.
    + intros r0 H. apply elem_of_cons in H as [->|H]; auto.
    + intros k. rewrite Hkeys', Hkeys. csimpl. rewrite elem_of_cons. tauto.
Qed.

Lemma enumerableKeys_frozen o : frozen o -> Js.enumerableKeys o = [].
Proof.
  intros Hf. unfold Js.enumerableKeys.
  induction o as [|[k p] o IH]; [done|].
  assert (Hp : ~ (Js.p_enumerable p = true)).
  { destruct (Hf k p) as (_ & He & _); [left|]. simpl. by rewrite He. }
  rewrite (filter_cons_False _ (k, p) o Hp).
  apply IH. intros k1 p1 H. apply (Hf k1). by right.
Qed.

Lemma consistent_conflict rows r1 r2 :
  r1 ∈ rows -> r2 ∈ rows -> key r1 = key r2 -> Value r1 <> Value r2 ->
  ~ consistent rows.
Proof. intros H1 H2 Hk Hv Hc. apply Hv. by apply Hc. Qed.

End DefinedRows.

(** X1.  HEAD side, any rows: the call always resolves.  The own property of
    the mapping under a key other than ["__proto__"] holds the Value of the
    last row stored under that key, and the mapping has no own property
    under a key that no row has; a row titled ["__proto__"] leaves no own
    property.  ([Js.get] reads own properties; what a key inherits from
    [Object.prototype] is not part of the statement.)  No key occurs twice,
    and every own key is enumerable. *)
Theorem getConfiguration_HEAD_last_write_wins (rows : list SPList.Row) :
  exists m,
    SPList.getConfiguration SPList.HEAD (Resolved rows) = Resolved m
    /\ (forall k, Js.get m k =
                  if decide (k = "__proto__") then None else lastValue rows k)
    /\ NoDup (Js.ownKeys m)
    /\ Js.enumerableKeys m = Js.ownKeys m.
Proof.
  rewrite getConfiguration_reduce. simpl.
  destruct (reduce_assignRow_assigned rows Js.empty assigned_empty)
    as (m & -> & Hm & Hget).
  exists m. split; [done|]. split; [|split].
  - intros k. rewrite Hget. case_decide; [done|].
    by destruct (lastValue rows k).
  - apply Hm.
  - by apply enumerableKeys_assigned.
Qed.

(** X2.  Incoming side, any rows: the call resolves exactly when rows that
    share a key share the Value, and rejects with a TypeError otherwise.
    When it resolves, looking up each row's key yields that row's Value, the
    own keys are exactly the rows' keys, and no key occurs twice. *)
Theorem getConfiguration_Incoming_characterised (rows : list SPList.Row) :
  match SPList.getConfiguration SPList.Incoming (Resolved rows) with
  | Resolved m =>
      consistent rows
      /\ (forall r, r ∈ rows -> Js.get m (SPList.key r) = Some (SPList.Value r))
      /\ (forall k, k ∈ Js.ownKeys m <-> k ∈ SPList.key <$> rows)
      /\ NoDup (Js.ownKeys m)
  | Rejected e => e = TypeError /\ ~ consistent rows
  end.
Proof.
  rewrite getConfiguration_reduce. simpl.
  destruct (reduce SPList.defineRow rows Js.empty) as [m|e] eqn:E.
  - destruct (reduce_defineRow_resolved rows Js.empty m frozen_empty
                (NoDup_nil_2) E) as (_ & Hnd & _ & Hrows & Hkeys).
    assert (Hget : forall r, r ∈ rows ->
                     Js.get m (SPList.key r) = Some (SPList.Value r)).
    { intros r Hr. unfold Js.get. by rewrite (Hrows r Hr). }
    split; [|split; [done|split; [|done]]].
    + intros r1 r2 H1 H2 Hk.
      pose proof (Hget r1 H1) as G1. pose proof (Hget r2 H2) as G2.
      rewrite Hk in G1. congruence.
    + intros k. rewrite Hkeys. split; [|by right].
      intros [H|H]; [inversion H | done].
  - assert (Hs : stores_rows [] Js.empty) by (intros k p H; inversion H).
    pose proof (reduce_defineRow rows Js.empty [] frozen_empty Hs) as H.
    rewrite E in H. simpl in H.
    destruct H as (-> & r1 & r2 & H1 & H2 & Hk & Hv).
    split; [done|]. exact (consistent_conflict rows r1 r2 H1 H2 Hk Hv).
Qed.

(** X3.  Incoming side: the resolved mapping is closed for good.  Nothing
    in it is enumerable.  Assigning any value to one of its keys, in strict
    code, throws.  Defining a Value under one of its keys, the way a further
    row would be stored, changes nothing when the Value is the one already
    there and throws otherwise. *)
Theorem getConfiguration_Incoming_read_only
    (rows : list SPList.Row) (m : Js.object) (k : string) (v : Js.value)
    (Hresolved : SPList.getConfiguration SPList.Incoming (Resolved rows)
                 = Resolved m)
    (Hkey : k ∈ Js.ownKeys m) :
  Js.enumerableKeys m = []
  /\ Js.set m k v = Rejected TypeError
  /\ SPList.defineRow m {| SPList.Title := Some k; SPList.Value := v |}
     = if decide (Js.get m k = Some v) then Resolved m else Rejected TypeError.
Proof.
  rewrite getConfiguration_reduce in Hresolved. simpl in Hresolved.
  destruct (reduce_defineRow_resolved rows Js.empty m frozen_empty
              (NoDup_nil_2) Hresolved) as (Hf & _).
  destruct (Js.getOwnProperty m k) as [p|] eqn:E.
  2: { apply getOwnProperty_None in E. done. }
  destruct (Hf _ _ (getOwnProperty_elem _ _ _ E)) as (Hw & He & Hc).
  split; [by apply enumerableKeys_frozen|]. split.
  - unfold Js.set. by rewrite E, Hw.
  - unfold SPList.defineRow, Js.defineProperty, SPList.key, Js.get. simpl.
    rewrite E, Hc, He, Hw. simpl.
    destruct (Js.sameValue v (Js.p_value p)) eqn:Es.
    + apply sameValue_true in Es. subst v. by rewrite decide_True.
    + apply sameValue_false in Es. rewrite decide_False; [done|].
      intros [= Heq]. by apply Es.
Qed.

Lemma getConfiguration_Incoming_read_only_witness :
  let m := [("A", Js.Property (Some "1") false false false);
            ("B", Js.Property (Some "2") false false false)] in
  Js.enumerableKeys m = []
  /\ Js.set m "A" (Some "1") = Rejected TypeError
  /\ SPList.defineRow m {| SPList.Title := Some "A"; SPList.Value := Some "1" |}
     = Resolved m.
Proof.
  intros m.
  apply (getConfiguration_Incoming_read_only rowsAB m "A" (Some "1")).
  - reflexivity.
  - apply (bool_decide_unpack _). vm_compute. exact I.
Defined.

(** The same mapping refuses another Value under ["A"]. *)
Example getConfiguration_Incoming_refuses_change :
  let m := [("A", Js.Property (Some "1") false false false);
            ("B", Js.Property (Some "2") false false false)] in
  Js.set m "A" (Some "9") = Rejected TypeError
  /\ SPList.defineRow m {| SPList.Title := Some "A"; SPList.Value := Some "9" |}
     = Rejected TypeError.
Proof. split; reflexivity. Qed.

(** X4.  Incoming side: the order of the rows does not matter.  Two
    responses with the same rows in different order both reject, or both
    resolve with mappings that agree on every lookup. *)
Theorem getConfiguration_Incoming_order_irrelevant
    (rows rows' : list SPList.Row) (Hperm : rows ≡ₚ rows') :
  match SPList.getConfiguration SPList.Incoming (Resolved rows),
        SPList.getConfiguration SPList.Incoming (Resolved rows') with
  | Resolved m, Resolved m' => forall k, Js.get m k = Js.get m' k
  | Rejected e, Rejected e' => e = e'
  | _, _ => False
  end.
Proof.
  assert (Hcons : forall l l', l ≡ₚ l' -> consistent l -> consistent l').
  { intros l l' Hp Hc r1 r2 H1 H2. apply Hc; by rewrite Hp. }
  pose proof (getConfiguration_Incoming_characterised rows) as H.
  pose proof (getConfiguration_Incoming_characterised rows') as H'.
  destruct (SPList.getConfiguration SPList.Incoming (Resolved rows)) as [m|e],
           (SPList.getConfiguration SPList.Incoming (Resolved rows')) as [m'|e'].
  - destruct H as (_ & Hget & Hkeys & _), H' as (_ & Hget' & Hkeys' & _).
    intros k. destruct (decide (k ∈ SPList.key <$> rows)) as [Hk|Hk].
    + apply list_elem_of_fmap in Hk as (r & -> & Hr).
      rewrite (Hget r Hr). symmetry. apply Hget'. by rewrite <- Hperm.
    + assert (Hm : Js.get m k = None) by (apply get_None; by rewrite Hkeys).
      assert (Hm' : Js.get m' k = None).
      { apply get_None. rewrite Hkeys'. by rewrite <- Hperm. }
      by rewrite Hm, Hm'.
  - destruct H as (Hc & _), H' as (_ & Hn). apply Hn. by apply (Hcons rows).
  - destruct H as (_ & Hn), H' as (Hc & _). apply Hn. by apply (Hcons rows').
  - destruct H as (-> & _), H' as (-> & _). done.
Qed.

Lemma getConfiguration_Incoming_order_irrelevant_witness :
  let m := [("A", Js.Property (Some "1") false false false);
            ("B", Js.Property (Some "2") false false false)] in
  let m' := [("B", Js.Property (Some "2") false false false);
             ("A", Js.Property (Some "1") false false false)] in
  Js.get m "A" = Js.get m' "A" /\ Js.get m "B" = Js.get m' "B"
  /\ Js.get m "C" = Js.get m' "C".
Proof.
  intros m m'.
  assert (Hperm : rowsAB ≡ₚ reverse rowsAB) by (vm_compute; apply perm_swap).
  pose proof (getConfiguration_Incoming_order_irrelevant
                rowsAB (reverse rowsAB) Hperm) as H.
  repeat split; apply H.
Defined.

(** Rows with pairwise distinct keys are consistent. *)
Lemma distinct_keys_consistent (rows : list SPList.Row) :
  NoDup (SPList.key <$> rows) -> consistent rows.
Proof.
  induction rows as [|r rows IH]; intros Hnd r1 r2 H1 H2 Hk.
  - inversion H1.
  - csimpl in Hnd. apply NoDup_cons in Hnd as [Hr Hnd].
    apply elem_of_cons in H1 as [->|H1]; apply elem_of_cons in H2 as [->|H2].
    + done.
    + exfalso. apply Hr. rewrite Hk. by apply list_elem_of_fmap_2.
    + exfalso. apply Hr. rewrite <- Hk. by apply list_elem_of_fmap_2.
    + by apply IH.
Qed.

(** X5.  When rows that share a key share the Value and no row is titled
    ["__proto__"], both sides of the merge resolve, and the two mappings
    agree on every lookup and have the same own keys; they differ in the
    attributes of their properties only. *)
Theorem getConfiguration_sides_agree
    (rows : list SPList.Row)
    (Hconsistent : consistent rows)
    (Hproto : "__proto__" ∉ SPList.key <$> rows) :
  exists mH mI,
    SPList.getConfiguration SPList.HEAD (Resolved rows) = Resolved mH
    /\ SPList.getConfiguration SPList.Incoming (Resolved rows) = Resolved mI
    /\ (forall k, Js.get mH k = Js.get mI k)
    /\ (forall k, k ∈ Js.ownKeys mH <-> k ∈ Js.ownKeys mI).
Proof.
  destruct (getConfiguration_HEAD_last_write_wins rows) as (mH & EH & HgetH & _).
  pose proof (getConfiguration_Incoming_characterised rows) as HI.
  destruct (SPList.getConfiguration SPList.Incoming (Resolved rows))
    as [mI|e]; [|by destruct HI as (_ & Hn)].
  destruct HI as (_ & HgetI & HkeysI & _).
  assert (Hagree : forall k, Js.get mH k = Js.get mI k).
  { intros k. rewrite HgetH. case_decide as Hk.
    - subst. symmetry. apply get_None. by rewrite HkeysI.
    - destruct (lastValue rows k) as [v|] eqn:E.
      + apply lastValue_Some in E as (r & Hr & <- & <-).
        symmetry. by apply HgetI.
      + apply lastValue_None in E. symmetry. apply get_None. by rewrite HkeysI. }
  exists mH, mI. split; [done|]. split; [done|]. split; [done|].
  intros k.
  destruct (decide (k ∈ Js.ownKeys mH)) as [H1|H1],
           (decide (k ∈ Js.ownKeys mI)) as [H2|H2]; try tauto.
  - apply get_None in H2. rewrite <- Hagree in H2. apply get_None in H2. done.
  - apply get_None in H1. rewrite Hagree in H1. apply get_None in H1. done.
Qed.

Lemma getConfiguration_sides_agree_witness :
  exists mH mI,
    SPList.getConfiguration SPList.HEAD (Resolved rowsABA) = Resolved mH
    /\ SPList.getConfiguration SPList.Incoming (Resolved rowsABA) = Resolved mI
    /\ (forall k, Js.get mH k = Js.get mI k)
    /\ (forall k, k ∈ Js.ownKeys mH <-> k ∈ Js.ownKeys mI).
Proof.
  apply (getConfiguration_sides_agree rowsABA).
  - intros r1 r2 H1 H2 Hk. unfold rowsABA in H1, H2.
    repeat (apply elem_of_cons in H1 as [->|H1]);
      try (by inversion H1);
      repeat (apply elem_of_cons in H2 as [->|H2]);
      try (by inversion H2);
      solve [reflexivity | vm_compute in Hk; discriminate Hk].
  - apply (bool_decide_unpack _). vm_compute. exact I.
Defined.

(** ** asCaching: when cache keys coincide *)

Section CacheKeyFacts.

Implicit Types (u t : string) (c : ascii).

Lemma string_app_nil (s : string) : EmptyString +:+ s = s.
Proof. reflexivity. Qed.

Lemma string_app_cons (x : ascii) (a s : string) :
  String x a +:+ s = String x (a +:+ s).
Proof. reflexivity. Qed.

Lemma string_app_assoc (a b d : string) : (a +:+ b) +:+ d = a +:+ (b +:+ d).
Proof.
  induction a as [|x a IH]; [done|].
  rewrite !string_app_cons. by rewrite IH.
Qed.

Lemma occurs_after u c t : occurs c (u +:+ String c t) = true.
Proof.
  induction u as [|x u IH].
  - rewrite string_app_nil. simpl. by rewrite Ascii.eqb_refl.
  - rewrite string_app_cons. simpl. by destruct (Ascii.eqb x c).
Qed.

(** A string splits in one way only around the last occurrence of [c]. *)
Lemma split_at_last c : forall u1 u2 t1 t2,
  occurs c t1 = false -> occurs c t2 = false ->
  u1 +:+ String c t1 = u2 +:+ String c t2 ->
  u1 = u2 /\ t1 = t2.
Proof.
  induction u1 as [|x u1 IH]; intros [|y u2] t1 t2 H1 H2;
    rewrite ?string_app_nil, ?string_app_cons.
  - by intros [= ->].
  - intros [= <- ->]. by rewrite occurs_after in H1.
  - intros [= -> <-]. by rewrite occurs_after in H2.
  - intros [= -> E]. destruct (IH u2 t1 t2 H1 H2 E) as [-> ->]. done.
Qed.

End CacheKeyFacts.

(** X6.  Incoming side: the cache key runs the URL and the list title
    together, so a ["+"] can be read as part of either.  A provider over a
    web whose URL ends in ["+" + t1], with list title [t2], gets the key of
    a provider over the web without that ending with list title
    [t1 + "+" + t2]. *)
Theorem asCaching_key_collision
    (web1 web2 : Rest.Queryable) (t1 t2 : string)
    (Hurl : Rest.toUrl web1 = Rest.toUrl web2 +:+ "+" +:+ t1) :
  Caching.cacheKey (SPList.asCaching SPList.Incoming (SPList.new web1 (Some t2)))
  = Caching.cacheKey
      (SPList.asCaching SPList.Incoming
         (SPList.new web2 (Some (t1 +:+ "+" +:+ t2)))).
Proof.
  unfold SPList.asCaching, SPList.new, SPList.web, SPList.listTitle. simpl.
  rewrite Hurl. by rewrite !string_app_assoc.
Qed.

Lemma asCaching_key_collision_witness :
  Caching.cacheKey
    (SPList.asCaching SPList.Incoming
       (SPList.new {| Rest._url := "https://contoso/a+b"; Rest._query := 1%positive |}
                   (Some "config")))
  = Caching.cacheKey
      (SPList.asCaching SPList.Incoming
         (SPList.new {| Rest._url := "https://contoso/a"; Rest._query := 2%positive |}
                     (Some ("b" +:+ "+" +:+ "config")))).
Proof.
  apply (asCaching_key_collision
           {| Rest._url := "https://contoso/a+b"; Rest._query := 1%positive |}
           {| Rest._url := "https://contoso/a"; Rest._query := 2%positive |}
           "b" "config").
  reflexivity.
Defined.

(** X7.  Incoming side: among providers whose list titles contain no ["+"],
    equal cache keys mean the same web URL and the same list title. *)
Theorem asCaching_key_injective
    (p1 p2 : SPList.Provider)
    (Hplain1 : occurs "+" (SPList.listTitle p1) = false)
    (Hplain2 : occurs "+" (SPList.listTitle p2) = false)
    (Hkey : Caching.cacheKey (SPList.asCaching SPList.Incoming p1)
            = Caching.cacheKey (SPList.asCaching SPList.Incoming p2)) :
  Rest.toUrl (SPList.web p1) = Rest.toUrl (SPList.web p2)
  /\ SPList.listTitle p1 = SPList.listTitle p2.
Proof.
  unfold SPList.asCaching in Hkey. simpl in Hkey.
  apply (String.app_inj "splist_") in Hkey.
  by apply (split_at_last "+").
Qed.

Lemma asCaching_key_injective_witness :
  let p := SPList.new {| Rest._url := "https://contoso/_api/web";
                         Rest._query := 1%positive |} None in
  let p' := SPList.new {| Rest._url := "https://contoso/_api/web";
                          Rest._query := 2%positive |} (Some "config") in
  Rest.toUrl (SPList.web p) = Rest.toUrl (SPList.web p')
  /\ SPList.listTitle p = SPList.listTitle p'.
Proof.
  intros p p'.
  apply (asCaching_key_injective p p'); reflexivity.
Defined.

(** ** How the builders of site.ts treat the world *)

Section Framing.

Import Rest.
Implicit Types (w : World) (q : Queryable) (l : loc).

Lemma bind_run {A B} (m : M A) (k : A -> M B) w :
  bind m k w = k (m w).1 (m w).2.
Proof. unfold bind. by destruct (m w). Qed.

Lemma preserves_ret {A} (a : A) : preserves (ret a : M A).
Proof. by intros w l Hl. Qed.

Lemma preserves_bind {A B} (m : M A) (k : A -> M B) :
  preserves m -> (forall a, preserves (k a)) -> preserves (bind m k).
Proof.
  intros Hm Hk w l Hl. rewrite bind_run.
  destruct (Hm w l Hl) as [Hsame Hl'].
  destruct (Hk (m w).1 (m w).2 l Hl') as [Hsame' Hl''].
  split; [by rewrite Hsame' | done].
Qed.

Lemma preserves_new baseUrl path : preserves (new baseUrl path).
Proof. intros w l Hl. by destruct (new_frame baseUrl path w l Hl) as (? & _ & ?). Qed.

Lemma preserves_send m q o : preserves (send m q o).
Proof. by intros w l Hl. Qed.

Lemma preserves_and_thenM {A B} (p : Outcome A) (f : A -> M (Outcome B)) :
  (forall a, preserves (f a)) -> preserves (and_thenM p f).
Proof. intros Hf. destruct p as [a|e]; [apply Hf | apply preserves_ret]. Qed.

Lemma preserves_discard {A} (m : M A) : preserves m -> preserves (discard m).
Proof.
  intros Hm. apply preserves_bind; [done|]. intros a. apply preserves_ret.
Qed.

(** A query parameter added to a Queryable that was just built from a base
    string writes to the new dictionary only. *)
Lemma preserves_new_add_get base k v :
  preserves (let* q := new (inl base) None in
             let* _ := query_add q k v in
             get q).
Proof.
  intros w l Hl. rewrite !bind_run.
  destruct (new_frame (inl base) None w l Hl) as (Hsame & Hne & Hl').
  destruct (query_add_frame (new (inl base) None w).1 k v
              (new (inl base) None w).2 l Hl' Hne) as (Hsame' & Hl'').
  split; [exact (eq_trans Hsame' Hsame) | exact Hl''].
Qed.

Lemma emits_ret {A} (a : A) P : emits (ret a : M A) 0 P.
Proof. intros w. exists []. by rewrite app_nil_r. Qed.

Lemma emits_bind {A B} (m : M A) (k : A -> M B) n1 n2 P :
  emits m n1 P -> (forall a, emits (k a) n2 P) -> emits (bind m k) (n1 + n2) P.
Proof.
  intros Hm Hk w. rewrite bind_run.
  destruct (Hm w) as (new1 & E1 & L1 & F1).
  destruct (Hk (m w).1 (m w).2) as (new2 & E2 & L2 & F2).
  exists (new1 ++ new2). split; [|split].
  - by rewrite E2, E1, app_assoc.
  - rewrite length_app. lia.
  - by apply Forall_app.
Qed.

Lemma emits_new baseUrl path P : emits (new baseUrl path) 0 P.
Proof. intros w. exists []. by rewrite new_sent, app_nil_r. Qed.

Lemma emits_query_add q k v P : emits (query_add q k v) 0 P.
Proof. intros w. exists []. by rewrite app_nil_r. Qed.

Lemma emits_send m q o (P : Request -> Prop) :
  (forall w, P {| r_method := m; r_url := toUrl q;
                  r_query := entries (_query q) w;
                  r_headers := o_headers o; r_body := o_body o |}) ->
  emits (send m q o) 1 P.
Proof.
  intros HP w. eexists. split; [apply send_sent|]. split; [done|].
  apply Forall_singleton, HP.
Qed.

Lemma emits_and_thenM {A B} (p : Outcome A) (f : A -> M (Outcome B)) P :
  (forall a, emits (f a) 0 P) -> emits (and_thenM p f) 0 P.
Proof. intros Hf. destruct p as [a|e]; [apply Hf | apply emits_ret]. Qed.

Lemma emits_discard {A} (m : M A) n P : emits m n P -> emits (discard m) n P.
Proof.
  intros Hm. replace n with (n + 0) by lia.
  apply emits_bind; [done|]. intros a. apply emits_ret.
Qed.

End Framing.

Section CallFacts.

Import Rest.

Lemma preserves_added this data : preserves (Fields.added this data).
Proof.
  unfold Fields.added. apply preserves_and_thenM. intros id.
  apply preserves_bind; [apply preserves_new|]. intros f. apply preserves_ret.
Qed.

Lemma preserves_add this title fieldType properties :
  preserves (Fields.add this title fieldType properties).
Proof.
  unfold Fields.add. apply preserves_bind; [apply preserves_send|].
  intros r. apply preserves_and_thenM. apply preserves_added.
Qed.

Lemma preserves_setShow this path :
  preserves (let* q := Field.new (inr this) path in post q noOptions).
Proof.
  apply preserves_bind; [apply preserves_new|]. intros q. apply preserves_send.
Qed.

Lemma emits_added this data P : emits (Fields.added this data) 0 P.
Proof.
  unfold Fields.added. apply emits_and_thenM. intros id.
  apply (emits_bind _ _ 0 0); [apply emits_new|]. intros f. apply emits_ret.
Qed.

Lemma emits_add this title fieldType properties (P : Request -> Prop) :
  (forall r, r_method r = POST -> r_headers r = ∅ -> P r) ->
  emits (Fields.add this title fieldType properties) 1 P.
Proof.
  intros HP. unfold Fields.add. apply (emits_bind _ _ 1 0).
  - apply emits_send. intros w. by apply HP.
  - intros r. apply emits_and_thenM. intros data. apply emits_added.
Qed.

Lemma emits_setShow this path (P : Request -> Prop) :
  (forall r, r_method r = POST -> r_headers r = ∅ -> P r) ->
  emits (let* q := Field.new (inr this) path in post q noOptions) 1 P.
Proof.
  intros HP. apply (emits_bind _ _ 0 1); [apply emits_new|].
  intros q. apply emits_send. intros w. by apply HP.
Qed.

Lemma emits_new_add_get base k v (P : Request -> Prop) :
  (forall r, r_method r = GET -> r_headers r = ∅ -> P r) ->
  emits (let* q := new (inl base) None in
         let* _ := query_add q k v in
         get q) 1 P.
Proof.
  intros HP. apply (emits_bind _ _ 0 1); [apply emits_new|].
  intros q. apply (emits_bind _ _ 0 1); [apply emits_query_add|].
  intros _. apply emits_send. intros w. by apply HP.
Qed.

End CallFacts.

(** X8.  No method of [Field], [Fields] or [Site] writes to a
    query-parameter dictionary that exists when it is called: whatever the
    call, its arguments and the answer of the remote end, every such
    dictionary, the receiver's own included, holds afterwards what it held
    before. *)
Theorem calls_preserve_dictionaries
    (c : Call) (this : Rest.Queryable) (w : Rest.World) (l : Rest.loc)
    (Hl : l ∈ dom (Rest.dictionaries w)) :
  Rest.dictionaries (perform c this w).2 !! l = Rest.dictionaries w !! l
  /\ l ∈ dom (Rest.dictionaries (perform c this w).2).
Proof.
  revert w l Hl. change (preserves (perform c this)).
  destruct c; simpl; apply preserves_discard.
  - apply preserves_new.
  - apply preserves_new.
  - unfold Fields.createFieldAsXml.
    apply preserves_bind; [apply preserves_new|]. intros q.
    apply preserves_bind; [apply preserves_send|]. intros r.
    apply preserves_and_thenM. apply preserves_added.
  - apply preserves_add.
  - apply preserves_add.
  - apply preserves_add.
  - apply preserves_add.
  - unfold Field.update. apply preserves_bind; [apply preserves_send|].
    intros r. apply preserves_ret.
  - apply preserves_send.
  - apply preserves_setShow.
  - apply preserves_setShow.
  - apply preserves_setShow.
  - unfold Site.getContextInfo, Site.new.
    apply preserves_bind; [apply preserves_new|]. intros q.
    apply preserves_send.
  - apply preserves_new_add_get.
  - apply preserves_new_add_get.
Qed.

Lemma calls_preserve_dictionaries_witness :
  let this := (Fields.new (inl "_api/web") None world0).1 in
  let w := (Rest.query_add this "$select" "Title"
              (Fields.new (inl "_api/web") None world0).2).2 in
  let c := Add "Notes" "SP.FieldText" None in
  Rest.dictionaries (perform c this w).2 !! Rest._query this
  = Rest.dictionaries w !! Rest._query this
  /\ Rest._query this ∈ dom (Rest.dictionaries (perform c this w).2).
Proof.
  intros this w c.
  apply (calls_preserve_dictionaries c this w (Rest._query this)).
  apply (bool_decide_unpack _). vm_compute. exact I.
Defined.

(** X9.  Every method hands the transport a fixed number of requests,
    whatever the remote end answers: none for [getByTitle] and [getById],
    exactly one for each of the others.  That request is a GET for
    [getDocumentLibraries] and [getWebUrlFromPageUrl] and a POST otherwise,
    and it carries an [X-HTTP-Method] header for [update] and [delete]
    only.  The earlier history is kept. *)
Theorem calls_emit_one_request
    (c : Call) (this : Rest.Queryable) (w : Rest.World) :
  exists new,
    Rest.sent (perform c this w).2 = Rest.sent w ++ new
    /\ length new = match verb c with Some _ => 1 | None => 0 end
    /\ Forall (fun r => Some (Rest.r_method r) = verb c
                        /\ Rest.r_headers r !! "X-HTTP-Method" = tunnelled c)
              new.
Proof.
  revert w.
  change (emits (perform c this) (match verb c with Some _ => 1 | None => 0 end)
            (fun r => Some (Rest.r_method r) = verb c
                      /\ Rest.r_headers r !! "X-HTTP-Method" = tunnelled c)).
  assert (Hplain : forall (m : Rest.Method) (r : Rest.Request),
            Rest.r_method r = m -> Rest.r_headers r = ∅ ->
            Some (Rest.r_method r) = Some m
            /\ Rest.r_headers r !! "X-HTTP-Method" = None).
  { intros m r -> ->. split; [done | apply lookup_empty]. }
  destruct c; simpl; apply emits_discard.
  - apply emits_new.
  - apply emits_new.
  - unfold Fields.createFieldAsXml.
    apply (emits_bind _ _ 0 1); [apply emits_new|]. intros q.
    apply (emits_bind _ _ 1 0).
    + apply emits_send. intros w. by apply Hplain.
    + intros r. apply emits_and_thenM. intros data. apply emits_added.
  - apply emits_add, Hplain.
  - apply emits_add, Hplain.
  - apply emits_add, Hplain.
  - apply emits_add, Hplain.
  - unfold Field.update. apply (emits_bind _ _ 1 0).
    + apply emits_send. intros w. split; [done | apply lookup_singleton_eq].
    + intros r. apply emits_ret.
  - apply emits_send. intros w. split; [done | apply lookup_singleton_eq].
  - apply emits_setShow, Hplain.
  - apply emits_setShow, Hplain.
  - apply emits_setShow, Hplain.
  - unfold Site.getContextInfo, Site.new.
    apply (emits_bind _ _ 0 1); [apply emits_new|]. intros q.
    apply emits_send. intros w. by apply Hplain.
  - apply emits_new_add_get, Hplain.
  - apply emits_new_add_get, Hplain.
Qed.

(** ** What the creation and update methods send and return *)

Section Envelopes.

Import Rest.
Implicit Types (this : Queryable) (w : World)
  (fixed properties : list (string * Json.t)).

(** The one request [add] sends, for any properties. *)
Lemma add_request this title fieldType (properties : option (list (string * Json.t))) w :
  sent (Fields.add this title fieldType properties w).2 =
    sent w ++ [ {| r_method := POST; r_url := toUrl this;
                   r_query := entries (_query this) w;
                   r_headers := ∅;
                   r_body := Some (Json.stringify
                                     (Fields.addPayload title fieldType
                                        (default [] properties))) |} ].
Proof.
  unfold Fields.add. rewrite bind_run. rewrite added_sent. apply send_sent.
Qed.

(** The envelope of a typed creation method: the metadata, the title, the
    members the method fixes, then the caller's properties, as long as
    these use other keys. *)
Lemma typed_payload title fieldType fixed properties :
  NoDup fixed.*1 ->
  Forall (fun k => k ∉ ["__metadata"; "Title"; "__proto__"]) fixed.*1 ->
  NoDup properties.*1 ->
  Forall (fun k => k ∉ "__metadata" :: "Title" :: "__proto__" :: fixed.*1)
         properties.*1 ->
  Fields.addPayload title fieldType (extend fixed properties) =
    Json.Obj (("__metadata", Json.Obj [("type", Json.Str fieldType)])
              :: ("Title", Json.Str title) :: fixed ++ properties).
Proof.
  intros Hfixed Hfree Hprops Hfree'. unfold Fields.addPayload.
  rewrite Forall_forall in Hfree. rewrite Forall_forall in Hfree'.
  assert (Hproto : "__proto__" ∉ properties.*1).
  { intros H. apply (Hfree' _ H). by do 2 right; left. }
  assert (Hproto' : "__proto__" ∉ fixed.*1).
  { intros H. apply (Hfree _ H). by do 2 right; left. }
  rewrite (extend_disjoint properties fixed Hprops Hproto).
  - rewrite extend_disjoint; [done | | |].
    + rewrite fmap_app. apply NoDup_app. split; [done|]. split; [|done].
      intros k Hk Hk'. apply (Hfree' k Hk'). by do 3 right.
    + rewrite fmap_app. by apply not_elem_of_app.
    + intros k Hk. csimpl. rewrite fmap_app in Hk.
      apply elem_of_app in Hk as [Hk|Hk].
      * intros H. apply (Hfree k Hk).
        apply elem_of_cons in H as [->|H]; [left|].
        apply elem_of_cons in H as [->|H]; [right; left | inversion H].
      * intros H. apply (Hfree' k Hk).
        apply elem_of_cons in H as [->|H]; [left|].
        apply elem_of_cons in H as [->|H]; [right; left | inversion H].
  - intros k Hk Hk'. apply (Hfree' k Hk). by do 3 right.
Qed.

End Envelopes.

(** X10.  [addText] posts to the collection the envelope of type
    ["SP.FieldText"] with the title, [FieldTypeKind] 2 and then the caller's
    properties (when these have distinct keys other than ["__metadata"],
    ["Title"], ["__proto__"] and ["FieldTypeKind"], and their numbers are integers of
    magnitude at most 2^53 - 1).  The serialisation lists the members as
    JavaScript does, array-index keys first.  The [maxLength] argument has
    no influence on the request: the body is the same for every value of
    it, and has no member for it. *)
Theorem addText_body
    (this : Rest.Queryable) (title : string) (maxLength : option Z)
    (properties : option (list (string * Json.t))) (w : Rest.World)
    (Hdistinct : NoDup (default [] properties).*1)
    (Hfree : Forall (fun k => k ∉ ["__metadata"; "Title"; "__proto__";
                                   "FieldTypeKind"])
                    (default [] properties).*1)
    (Hsafe : Json.safe (Json.Obj (default [] properties)) = true) :
  Rest.sent (Fields.addText this title maxLength properties w).2 =
    Rest.sent w ++
      [ {| Rest.r_method := Rest.POST; Rest.r_url := Rest.toUrl this;
           Rest.r_query := Rest.entries (Rest._query this) w;
           Rest.r_headers := ∅;
           Rest.r_body :=
             Some (Json.stringify
                     (Json.Obj
                        (("__metadata", Json.Obj [("type", Json.Str "SP.FieldText")])
                         :: ("Title", Json.Str title)
                         :: ("FieldTypeKind", Json.Num 2)
                         :: default [] properties))) |} ].
Proof.
  unfold Fields.addText. rewrite add_request. cbn [from_option id].
  rewrite typed_payload; [done | | | done | done].
  - apply (bool_decide_unpack _). by vm_compute.
  - apply (bool_decide_unpack _). by vm_compute.
Qed.

Lemma addText_body_witness :
  let this := (Fields.new (inl "_api/web") None world0).1 in
  let w := (Fields.new (inl "_api/web") None world0).2 in
  Rest.sent (Fields.addText this "Notes" (Some 40%Z)
               (Some [("Required", Json.Bool true)]) w).2 =
    Rest.sent w ++
      [ {| Rest.r_method := Rest.POST; Rest.r_url := Rest.toUrl this;
           Rest.r_query := Rest.entries (Rest._query this) w;
           Rest.r_headers := ∅;
           Rest.r_body :=
             Some (Json.stringify
                     (Json.Obj
                        (("__metadata", Json.Obj [("type", Json.Str "SP.FieldText")])
                         :: ("Title", Json.Str "Notes")
                         :: ("FieldTypeKind", Json.Num 2)
                         :: default [] (Some [("Required", Json.Bool true)])))) |} ].
Proof.
  intros this w.
  apply (addText_body this "Notes" (Some 40%Z)
           (Some [("Required", Json.Bool true)]) w);
    first [ reflexivity | apply (bool_decide_unpack _); vm_compute; exact I ].
Defined.

(** X11.  [addCalculated] posts to the collection the envelope of type
    ["SP.FieldCalculated"] with the title, then [DateFormat],
    [FieldTypeKind] 17, [Formula] and [OutputType], then the caller's
    properties (when these have distinct keys other than those six and
    ["__proto__"], and the numbers among the supplied values are integers
    of magnitude at most 2^53 - 1).  The serialisation lists the members as
    JavaScript does, array-index keys first.  An omitted [outputType] is sent as
    [Types.FieldTypes.Text]. *)
Theorem addCalculated_body
    (fieldTypesText : Json.t) (this : Rest.Queryable) (title formula : string)
    (dateFormat : Json.t) (outputType : option Json.t)
    (properties : option (list (string * Json.t))) (w : Rest.World)
    (Hdistinct : NoDup (default [] properties).*1)
    (Hfree : Forall (fun k => k ∉ ["__metadata"; "Title"; "__proto__";
                                   "DateFormat"; "FieldTypeKind"; "Formula";
                                   "OutputType"])
                    (default [] properties).*1)
    (Hsafe : Json.safe (Json.Obj (("DateFormat", dateFormat)
                                  :: ("OutputType",
                                      default fieldTypesText outputType)
                                  :: default [] properties)) = true) :
  Rest.sent (Fields.addCalculated fieldTypesText this title formula dateFormat
               outputType properties w).2 =
    Rest.sent w ++
      [ {| Rest.r_method := Rest.POST; Rest.r_url := Rest.toUrl this;
           Rest.r_query := Rest.entries (Rest._query this) w;
           Rest.r_headers := ∅;
           Rest.r_body :=
             Some (Json.stringify
                     (Json.Obj
                        (("__metadata",
                          Json.Obj [("type", Json.Str "SP.FieldCalculated")])
                         :: ("Title", Json.Str title)
                         :: ("DateFormat", dateFormat)
                         :: ("FieldTypeKind", Json.Num 17)
                         :: ("Formula", Json.Str formula)
                         :: ("OutputType", default fieldTypesText outputType)
                         :: default [] properties))) |} ].
Proof.
  unfold Fields.addCalculated. rewrite add_request. cbn [from_option id].
  rewrite typed_payload; [done | | | done | done].
  - apply (bool_decide_unpack _). by vm_compute.
  - apply (bool_decide_unpack _). by vm_compute.
Qed.

Lemma addCalculated_body_witness :
  let this := (Fields.new (inl "_api/web") None world0).1 in
  let w := (Fields.new (inl "_api/web") None world0).2 in
  Rest.sent (Fields.addCalculated (Json.Num 2) this "Total" "=[A]+[B]"
               (Json.Num 0) None None w).2 =
    Rest.sent w ++
      [ {| Rest.r_method := Rest.POST; Rest.r_url := Rest.toUrl this;
           Rest.r_query := Rest.entries (Rest._query this) w;
           Rest.r_headers := ∅;
           Rest.r_body :=
             Some (Json.stringify
                     (Json.Obj
                        (("__metadata",
                          Json.Obj [("type", Json.Str "SP.FieldCalculated")])
                         :: ("Title", Json.Str "Total")
                         :: ("DateFormat", Json.Num 0)
                         :: ("FieldTypeKind", Json.Num 17)
                         :: ("Formula", Json.Str "=[A]+[B]")
                         :: ("OutputType", default (Json.Num 2) None)
                         :: default [] None))) |} ].
Proof.
  intros this w.
  apply (addCalculated_body (Json.Num 2) this "Total" "=[A]+[B]"
           (Json.Num 0) None None w);
    first [ reflexivity | apply (bool_decide_unpack _); vm_compute; exact I ].
Defined.

(** X12.  [addDateTime] posts to the collection the envelope of type
    ["SP.FieldDateTime"] with the title, then [DateTimeCalendarType],
    [DisplayFormat], [FieldTypeKind] 4 and [FriendlyDisplayFormat], then the
    caller's properties (when these have distinct keys other than those
    six and ["__proto__"], and the numbers among the supplied values are
    integers of magnitude at most 2^53 - 1).  The serialisation lists the members as JavaScript
    does, array-index keys first. *)
Theorem addDateTime_body
    (this : Rest.Queryable) (title : string)
    (displayFormat calendarType friendlyDisplayFormat : Json.t)
    (properties : option (list (string * Json.t))) (w : Rest.World)
    (Hdistinct : NoDup (default [] properties).*1)
    (Hfree : Forall (fun k => k ∉ ["__metadata"; "Title"; "__proto__";
                                   "DateTimeCalendarType"; "DisplayFormat";
                                   "FieldTypeKind"; "FriendlyDisplayFormat"])
                    (default [] properties).*1)
    (Hsafe : Json.safe (Json.Obj (("DateTimeCalendarType", calendarType)
                                  :: ("DisplayFormat", displayFormat)
                                  :: ("FriendlyDisplayFormat",
                                      friendlyDisplayFormat)
                                  :: default [] properties)) = true) :
  Rest.sent (Fields.addDateTime this title displayFormat calendarType
               friendlyDisplayFormat properties w).2 =
    Rest.sent w ++
      [ {| Rest.r_method := Rest.POST; Rest.r_url := Rest.toUrl this;
           Rest.r_query := Rest.entries (Rest._query this) w;
           Rest.r_headers := ∅;
           Rest.r_body :=
             Some (Json.stringify
                     (Json.Obj
                        (("__metadata",
                          Json.Obj [("type", Json.Str "SP.FieldDateTime")])
                         :: ("Title", Json.Str title)
                         :: ("DateTimeCalendarType", calendarType)
                         :: ("DisplayFormat", displayFormat)
                         :: ("FieldTypeKind", Json.Num 4)
                         :: ("FriendlyDisplayFormat", friendlyDisplayFormat)
                         :: default [] properties))) |} ].
Proof.
  unfold Fields.addDateTime. rewrite add_request. cbn [from_option id].
  rewrite typed_payload; [done | | | done | done].
  - apply (bool_decide_unpack _). by vm_compute.
  - apply (bool_decide_unpack _). by vm_compute.
Qed.

Lemma addDateTime_body_witness :
  let this := (Fields.new (inl "_api/web") None world0).1 in
  let w := (Fields.new (inl "_api/web") None world0).2 in
  let friendly := Json.Arr [Json.Str "0"; Json.Str "1"; Json.Str "2"] in
  Rest.sent (Fields.addDateTime this "Due" (Json.Num 1) (Json.Num 1) friendly
               (Some [("Required", Json.Bool true)]) w).2 =
    Rest.sent w ++
      [ {| Rest.r_method := Rest.POST; Rest.r_url := Rest.toUrl this;
           Rest.r_query := Rest.entries (Rest._query this) w;
           Rest.r_headers := ∅;
           Rest.r_body :=
             Some (Json.stringify
                     (Json.Obj
                        (("__metadata",
                          Json.Obj [("type", Json.Str "SP.FieldDateTime")])
                         :: ("Title", Json.Str "Due")
                         :: ("DateTimeCalendarType", Json.Num 1)
                         :: ("DisplayFormat", Json.Num 1)
                         :: ("FieldTypeKind", Json.Num 4)
                         :: ("FriendlyDisplayFormat", friendly)
                         :: default [] (Some [("Required", Json.Bool true)])))) |} ].
Proof.
  intros this w friendly.
  apply (addDateTime_body this "Due" (Json.Num 1) (Json.Num 1) friendly
           (Some [("Required", Json.Bool true)]) w);
    first [ reflexivity | apply (bool_decide_unpack _); vm_compute; exact I ].
Defined.

(** The body of the [addDateTime] call above, written out. *)
Example addDateTime_body_text :
  singleQuoted
    (Json.stringify
       (Fields.addPayload "Due" "SP.FieldDateTime"
          (Rest.extend
             [("DateTimeCalendarType", Json.Num 1); ("DisplayFormat", Json.Num 1);
              ("FieldTypeKind", Json.Num 4);
              ("FriendlyDisplayFormat",
               Json.Arr [Json.Str "0"; Json.Str "1"; Json.Str "2"])]
             [("Required", Json.Bool true)])))
  = "{'__metadata':{'type':'SP.FieldDateTime'},'Title':'Due','DateTimeCalendarType':1,'DisplayFormat':1,'FieldTypeKind':4,'FriendlyDisplayFormat':['0','1','2'],'Required':true}".
Proof. vm_compute. reflexivity. Qed.

(** X13.  The two selectors treat the query parameters of the collection
    differently.  The field returned by [getById] is built from a string, so
    it starts with no query parameters at all; the one returned by
    [getByTitle] is built from the collection and starts with a copy of the
    collection's parameters. *)
Theorem selectors_and_query_parameters
    (this : Rest.Queryable) (id title : string) (w : Rest.World) :
  Rest.entries (Rest._query (Fields.getById this id w).1)
               (Fields.getById this id w).2 = ∅
  /\ Rest.entries (Rest._query (Fields.getByTitle this title w).1)
                  (Fields.getByTitle this title w).2
     = Rest.entries (Rest._query this) w.
Proof.
  split.
  - apply (new_entries (inl (Rest.toUrl this +:+ ("('" +:+ id +:+ "')"))) None w).
  - apply (new_entries (inr this) None w).
Qed.



(** A creation call answered with an object that has an [Id], and one
    answered with an empty object. *)
Example add_outcome_examples :
  let this := (Fields.new (inl "_api/web") None world0).1 in
  let w := (Fields.new (inl "_api/web") None world0).2 in
  let answering data :=
    {| Rest.dictionaries := Rest.dictionaries w; Rest.sent := Rest.sent w;
       Rest.remote := fun _ => Resolved data |} in
  let url (run : Outcome Fields.FieldAddResult * Rest.World) :=
    and_then run.1 (fun x => Resolved (Rest.toUrl (Fields.a_field x))) in
  url (Fields.add this "Notes" "SP.FieldText" None
         (answering (Json.Obj [("Id", Json.Str "7b7c777e")])))
  = Resolved "_api/web/fields('7b7c777e')"
  /\ url (Fields.add this "Notes" "SP.FieldText" None (answering (Json.Obj [])))
     = Resolved "_api/web/fields('undefined')"
  /\ url (Fields.add this "Notes" "SP.FieldText" None w) = Rejected TypeError.
Proof. repeat split. Qed.

(** The one request [update] sends, for any properties. *)
Lemma update_request (this : Rest.Queryable)
    (properties : list (string * Json.t)) (fieldType : option string)
    (w : Rest.World) :
  Rest.sent (Field.update this properties fieldType w).2 =
    Rest.sent w ++
      [ {| Rest.r_method := Rest.POST; Rest.r_url := Rest.toUrl this;
           Rest.r_query := Rest.entries (Rest._query this) w;
           Rest.r_headers := {[ "X-HTTP-Method" := "MERGE" ]};
           Rest.r_body :=
             Some (Json.stringify
                     (Field.updatePayload properties
                        (default "SP.Field" fieldType))) |} ].
Proof. reflexivity. Qed.

(** X15.  [update] posts the envelope whose ["__metadata"] is
    [{ type: fieldType }], with ["SP.Field"] when no type is given, followed
    by the properties (when these have distinct keys other than
    ["__metadata"] and ["__proto__"], and their numbers are integers of
    magnitude at most 2^53 - 1); the serialisation lists the members as JavaScript does,
    array-index keys first.  It allocates nothing, passes a rejection on as
    it is,
    and otherwise resolves with the answer as [data] and the receiver itself
    as [field].  [delete] sends no body and settles exactly as the remote end
    answers. *)
Theorem update_delete_outcome
    (this : Rest.Queryable) (properties : list (string * Json.t))
    (fieldType : option string) (w : Rest.World)
    (Hdistinct : NoDup properties.*1)
    (Hfree : "__metadata" ∉ properties.*1)
    (Hproto : "__proto__" ∉ properties.*1)
    (Hsafe : Json.safe (Json.Obj properties) = true) :
  let updated := Field.update this properties fieldType w in
  let deleted := Field.delete this w in
  Rest.sent updated.2 =
    Rest.sent w ++
      [ {| Rest.r_method := Rest.POST; Rest.r_url := Rest.toUrl this;
           Rest.r_query := Rest.entries (Rest._query this) w;
           Rest.r_headers := {[ "X-HTTP-Method" := "MERGE" ]};
           Rest.r_body :=
             Some (Json.stringify
                     (Json.Obj
                        (("__metadata",
                          Json.Obj [("type",
                                     Json.Str (default "SP.Field" fieldType))])
                         :: properties))) |} ]
  /\ Rest.dictionaries updated.2 = Rest.dictionaries w
  /\ updated.1 =
       and_then (Rest.remote w (Rest.sent updated.2))
         (fun data => Resolved {| Field.u_data := data; Field.u_field := this |})
  /\ Rest.sent deleted.2 =
       Rest.sent w ++
         [ {| Rest.r_method := Rest.POST; Rest.r_url := Rest.toUrl this;
              Rest.r_query := Rest.entries (Rest._query this) w;
              Rest.r_headers := {[ "X-HTTP-Method" := "DELETE" ]};
              Rest.r_body := None |} ]
  /\ deleted.1 = Rest.remote w (Rest.sent deleted.2).
Proof.
  intros updated deleted.
  assert (Hpayload : Field.updatePayload properties (default "SP.Field" fieldType)
            = Json.Obj (("__metadata",
                         Json.Obj [("type", Json.Str (default "SP.Field" fieldType))])
                        :: properties)).
  { unfold Field.updatePayload. rewrite extend_disjoint; [done | done | done |].
    intros k Hk. csimpl. rewrite not_elem_of_cons.
    split; [intros -> | apply not_elem_of_nil]; done. }
  split; [|by repeat split].
  unfold updated. rewrite update_request. by rewrite Hpayload.
Qed.

Lemma update_delete_outcome_witness :
  let this := (Fields.getById (Fields.new (inl "_api/web") None world0).1
                 "7b7c777e" (Fields.new (inl "_api/web") None world0).2).1 in
  let w := (Fields.getById (Fields.new (inl "_api/web") None world0).1
              "7b7c777e" (Fields.new (inl "_api/web") None world0).2).2 in
  let properties := [("Description", Json.Str "notes")] in
  let updated := Field.update this properties None w in
  let deleted := Field.delete this w in
  Rest.sent updated.2 =
    Rest.sent w ++
      [ {| Rest.r_method := Rest.POST; Rest.r_url := Rest.toUrl this;
           Rest.r_query := Rest.entries (Rest._query this) w;
           Rest.r_headers := {[ "X-HTTP-Method" := "MERGE" ]};
           Rest.r_body :=
             Some (Json.stringify
                     (Json.Obj
                        (("__metadata",
                          Json.Obj [("type", Json.Str (default "SP.Field" None))])
                         :: properties))) |} ]
  /\ Rest.dictionaries updated.2 = Rest.dictionaries w
  /\ updated.1 =
       and_then (Rest.remote w (Rest.sent updated.2))
         (fun data => Resolved {| Field.u_data := data; Field.u_field := this |})
  /\ Rest.sent deleted.2 =
       Rest.sent w ++
         [ {| Rest.r_method := Rest.POST; Rest.r_url := Rest.toUrl this;
              Rest.r_query := Rest.entries (Rest._query this) w;
              Rest.r_headers := {[ "X-HTTP-Method" := "DELETE" ]};
              Rest.r_body := None |} ]
  /\ deleted.1 = Rest.remote w (Rest.sent deleted.2).
Proof.
  intros this w properties.
  apply (update_delete_outcome this properties None w);
    first [ reflexivity | apply (bool_decide_unpack _); vm_compute; exact I ].
Defined.
